(** * kb-store-postgres: the statement builders and the vector store facade

    A shallow embedding of [src/lib/index.ts]: identifier quoting, the scope
    filter, the insert builder, the distance query and the six public
    operations of [PostgresVectorStore], over a model of the
    [sql-template-strings] statement object and of the [pg] pool. *)

From Stdlib Require Import List String Ascii Bool Arith ZArith NArith Lia.
From Stdlib Require Import DecimalString DecimalZ Sorted.
Import ListNotations.
Open Scope list_scope.
Open Scope string_scope.

Set Warnings "-register-all".

(** ** The JSON number grammar *)

(** [c] is one of the ten digits. *)
Definition is_digit (c : ascii) : bool :=
  let n := nat_of_ascii c in andb (Nat.leb 48 n) (Nat.leb n 57).

(** The states of the JSON number grammar: an optional minus sign; then a
    zero, or a non-zero digit and any digits; then optionally a dot and one
    or more digits; then optionally e or E, an optional sign, and one or
    more digits. *)
Inductive NumState : Type :=
| NStart | NMinus | NZero | NInt | NDot | NFrac | NExp | NExpSign | NExpDigits.

Definition num_step (st : NumState) (c : ascii) : option NumState :=
  match st with
  | NStart =>
      if Ascii.eqb c "-" then Some NMinus
      else if Ascii.eqb c "0" then Some NZero
      else if is_digit c then Some NInt else None
  | NMinus =>
      if Ascii.eqb c "0" then Some NZero
      else if is_digit c then Some NInt else None
  | NZero =>
      if Ascii.eqb c "." then Some NDot
      else if orb (Ascii.eqb c "e") (Ascii.eqb c "E") then Some NExp
      else None
  | NInt =>
      if is_digit c then Some NInt
      else if Ascii.eqb c "." then Some NDot
      else if orb (Ascii.eqb c "e") (Ascii.eqb c "E") then Some NExp
      else None
  | NDot => if is_digit c then Some NFrac else None
  | NFrac =>
      if is_digit c then Some NFrac
      else if orb (Ascii.eqb c "e") (Ascii.eqb c "E") then Some NExp
      else None
  | NExp =>
      if orb (Ascii.eqb c "+") (Ascii.eqb c "-") then Some NExpSign
      else if is_digit c then Some NExpDigits else None
  | NExpSign => if is_digit c then Some NExpDigits else None
  | NExpDigits => if is_digit c then Some NExpDigits else None
  end.

Definition num_final (st : NumState) : bool :=
  match st with
  | NZero | NInt | NFrac | NExpDigits => true
  | _ => false
  end.

Fixpoint num_run (st : NumState) (s : string) : bool :=
  match s with
  | EmptyString => num_final st
  | String c rest =>
      match num_step st c with
      | Some st' => num_run st' rest
      | None => false
      end
  end.

Definition is_json_number (s : string) : bool := num_run NStart s.

(** ** The JavaScript values the store handles *)

(** What the runtime provides for numbers.  JavaScript numbers are IEEE
    doubles; the store never computes with them, it only writes them into
    text ([Array.prototype.join]), reads them back ([JSON.parse]) and uses
    numeric literals for its defaults.  Numbers are told apart as [===] tells
    them apart.  The law is the one ECMA-262 states for [Number::toString]:
    the text of a finite number reads back as that number. *)
Class JSNumber (num : Type) : Type := {
  (** the number denoted by an integer literal of the source *)
  Number_of_Z : Z -> num;
  (** [Number::toString] *)
  Number_toString : num -> string;
  (** the number a JSON number token denotes *)
  JSON_number : string -> option num;
  Number_reads_back : forall x : num,
    is_json_number (Number_toString x) = true ->
    JSON_number (Number_toString x) = Some x
}.

Section Values.

Context {num : Type} {NUM : JSNumber num}.

(** A value of type [any]: what a scope, a record field, a bound parameter
    or a column of a returned row may hold.  [VObject shown] is any other
    object (a [Date], a function, ...), with the text its [toString]
    yields. *)
Inductive value : Type :=
| VUndefined
| VNull
| VBool (b : bool)
| VNum (n : num)
| VStr (s : string)
| VArr (items : list value)
| VObject (shown : string).

(** [String.prototype.concat] over a list, with a separator. *)
Definition join_strings (sep : string) (l : list string) : string :=
  String.concat sep l.

(** [ToString], with [Array.prototype.join] for arrays: [null] and
    [undefined] elements of an array render as the empty string. *)
Fixpoint ToString (v : value) : string :=
  match v with
  | VUndefined => "undefined"
  | VNull => "null"
  | VBool true => "true"
  | VBool false => "false"
  | VNum n => Number_toString n
  | VStr s => s
  | VArr items =>
      join_strings ","
        (map (fun x => match x with
                       | VUndefined | VNull => ""
                       | _ => ToString x
                       end) items)
  | VObject shown => shown
  end.

(** [items.join(sep)] *)
Definition Array_join (items : list value) (sep : string) : string :=
  join_strings sep
    (map (fun x => match x with
                   | VUndefined | VNull => ""
                   | _ => ToString x
                   end) items).

(** [Array.isArray] *)
Definition Array_isArray (v : value) : bool :=
  match v with VArr _ => true | _ => false end.

(** [v ?? d] *)
Definition nullish (v d : value) : value :=
  match v with
  | VUndefined | VNull => d
  | _ => v
  end.

(** ** Objects used as records

    The own enumerable string-keyed properties of an object, in the order
    [Object.keys] and [Object.entries] list them: array-index keys first,
    ascending, then the other keys in creation order. *)
Definition JSObject : Type := list (string * value).

Definition Object_entries (o : JSObject) : list (string * value) := o.
Definition Object_keys (o : JSObject) : list string := map fst o.

(** [o[key]] for an own property; [undefined] when there is none. *)
Fixpoint get_prop (o : JSObject) (key : string) : value :=
  match o with
  | [] => VUndefined
  | (k, v) :: o' => if String.eqb k key then v else get_prop o' key
  end.

Fixpoint has_own (o : JSObject) (key : string) : bool :=
  match o with
  | [] => false
  | (k, _) :: o' => if String.eqb k key then true else has_own o' key
  end.

(** A key is an array index when it is the canonical decimal text of an
    integer below 2^32 - 1. *)
Definition array_index (key : string) : option N :=
  match NilEmpty.uint_of_string key with
  | Some d =>
      let n := N.of_uint d in
      if andb (String.eqb (NilEmpty.string_of_uint (N.to_uint n)) key)
              (N.ltb n 4294967295)
      then Some n else None
  | None => None
  end.

Fixpoint replace_value (o : JSObject) (key : string) (v : value) : JSObject :=
  match o with
  | [] => []
  | (k, w) :: o' =>
      if String.eqb k key then (k, v) :: o'
      else (k, w) :: replace_value o' key v
  end.

(** Where a new array-index key goes: before the first key that is a larger
    index or no index at all. *)
Fixpoint define_index (o : JSObject) (i : N) (key : string) (v : value)
  : JSObject :=
  match o with
  | [] => [(key, v)]
  | (k, w) :: o' =>
      match array_index k with
      | Some j =>
          if N.ltb j i then (k, w) :: define_index o' i key v
          else (key, v) :: o
      | None => (key, v) :: o
      end
  end.

(** [CreateDataProperty]: an existing key keeps its place and takes the new
    value; a new key is added in key order. *)
Definition CreateDataProperty (o : JSObject) (key : string) (v : value)
  : JSObject :=
  if has_own o key then replace_value o key v
  else match array_index key with
       | Some i => define_index o i key v
       | None => (o ++ [(key, v)])%list
       end.

(** [{...target, ...source}], one source at a time. *)
Definition spread (target source : JSObject) : JSObject :=
  fold_left (fun t kv => CreateDataProperty t (fst kv) (snd kv))
            (Object_entries source) target.

(** ** Identifier quoting *)

Definition dquote : ascii := "034"%char.
Definition dq : string := String dquote EmptyString.

(** [str.replace] of every double quote by two of them. *)
Fixpoint double_quotes (str : string) : string :=
  match str with
  | EmptyString => EmptyString
  | String c rest =>
      if Ascii.eqb c dquote
      then String dquote (String dquote (double_quotes rest))
      else String c (double_quotes rest)
  end.

Definition createIdentifier (str : string) : string :=
  dq ++ double_quotes str ++ dq.

(** ** Statements of [sql-template-strings]

    A statement is the list of its literal strings and the list of the
    values bound between them. *)
Record SQLStatement : Type := mkSQL {
  strings : list string;
  values : list value
}.

(** The tagged templates the store uses: [SQL`s`] and [SQL`s${v}t`]. *)
Definition SQL0 (s : string) : SQLStatement := mkSQL [s] [].
Definition SQL1 (s : string) (v : value) (t : string) : SQLStatement :=
  mkSQL [s; t] [v].
Definition SQL2 (s : string) (v : value) (t : string) (w : value) (u : string)
  : SQLStatement :=
  mkSQL [s; t; u] [v; w].

(** [strings[strings.length - 1] += s] *)
Fixpoint add_to_last (l : list string) (s : string) : list string :=
  match l with
  | [] => []
  | [x] => [x ++ s]
  | x :: l' => x :: add_to_last l' s
  end.

(** [statement.append(s)] for a plain string. *)
Definition stmt_append_text (st : SQLStatement) (s : string) : SQLStatement :=
  mkSQL (add_to_last (strings st) s) (values st).

(** [statement.append(other)] for a statement. *)
Definition stmt_append (st other : SQLStatement) : SQLStatement :=
  mkSQL (add_to_last (strings st) (hd "" (strings other))
           ++ tl (strings other))
        (values st ++ values other).

Definition show_nat (i : nat) : string :=
  NilEmpty.string_of_uint (Nat.to_uint i).

(** [strings.reduce((prev, curr, i) => prev + '$' + i + curr)] *)
Fixpoint reduce_text (prev : string) (i : nat) (rest : list string) : string :=
  match rest with
  | [] => prev
  | curr :: rest' => reduce_text (prev ++ "$" ++ show_nat i ++ curr) (S i) rest'
  end.

Definition text (st : SQLStatement) : string :=
  match strings st with
  | [] => ""
  | s0 :: rest => reduce_text s0 1 rest
  end.

End Values.

Arguments value : clear implicits.
Arguments JSObject : clear implicits.
Arguments SQLStatement : clear implicits.

(** ** The statement builders *)

Section Builders.

Context {num : Type} {NUM : JSNumber num}.

#[local] Abbreviation value := (value num).
#[local] Abbreviation JSObject := (JSObject num).
#[local] Abbreviation SQLStatement := (SQLStatement num).

(** [#createScopeFilter]: the loop threads the statement and the [first]
    flag over the entries. *)
Definition scope_step (acc : SQLStatement * bool) (entry : string * value)
  : SQLStatement * bool :=
  let '(statement, first) := acc in
  let '(key, v) := entry in
  let statement :=
    if negb first then stmt_append statement (SQL0 " AND ") else statement in
  let statement :=
    stmt_append (stmt_append_text statement (createIdentifier key))
           (SQL1 " = " (nullish v VNull) "") in
  (statement, false).

Definition createScopeFilter (scope : JSObject) : SQLStatement :=
  let entries := Object_entries scope in
  if Nat.eqb (List.length entries) 0 then SQL0 ""
  else fst (fold_left scope_step entries (SQL0 "", true)).

(** The value a field is bound as: an array becomes the text
    [[v1,...,vn]]. *)
Definition bound_form (v : value) : value :=
  match v with
  | VArr items => VStr ("[" ++ Array_join items "," ++ "]")
  | _ => v
  end.

(** The second loop of [#createInsertQuery]: [i] is the index of the head of
    [rest] in the array of [n] values. *)
Fixpoint insert_values (statement : SQLStatement) (i n : nat)
  (rest : list value) : SQLStatement :=
  match rest with
  | [] => statement
  | v :: rest' =>
      let statement := stmt_append statement (SQL1 "" (bound_form v) "") in
      let statement :=
        if Nat.ltb i (n - 1) then stmt_append statement (SQL0 ", ")
        else statement in
      insert_values statement (S i) n rest'
  end.

(** The first loop of [#createInsertQuery]: the columns and the values, one
    of each per key. *)
Definition insert_step (fullObject : JSObject)
  (mapFunction : option (string -> string))
  (acc : list string * list value) (key : string)
  : list string * list value :=
  let '(columns, vals) := acc in
  let columnName :=
    match mapFunction with Some f => f key | None => key end in
  ((columns ++ [createIdentifier columnName])%list,
   (vals ++ [get_prop fullObject key])%list).

Definition returning_id : string := ") RETURNING " ++ dq ++ "id" ++ dq.

Definition createInsertQuery (table : string) (object scope : JSObject)
  (mapFunction : option (string -> string)) : SQLStatement :=
  let fullObject := spread (spread [] scope) object in
  let keys := Object_keys fullObject in
  let '(columns, vals) :=
    fold_left (insert_step fullObject mapFunction) keys ([], []) in
  let statement :=
    stmt_append (stmt_append_text (SQL0 "INSERT INTO ") (createIdentifier table))
           (SQL0 " (") in
  let statement := stmt_append_text statement (join_strings ", " columns) in
  let statement := stmt_append statement (SQL0 ") VALUES (") in
  let statement := insert_values statement 0 (List.length vals) vals in
  stmt_append statement (SQL0 returning_id).

(** ** The distance operator

    The operator is read from an object literal with the algorithm as the
    key.  A key the literal does not own is looked up on [Object.prototype],
    whose properties are functions (an object for [__proto__]). *)
Inductive Lookup : Type :=
| Own (s : string)
| Inherited (shown : string)
| Missing.

Definition native_function (name : string) : string :=
  "function " ++ name ++ "() { [native code] }".

Definition Object_prototype (key : string) : Lookup :=
  if String.eqb key "constructor" then Inherited (native_function "Object")
  else if String.eqb key "__proto__" then Inherited "[object Object]"
  else if existsb (String.eqb key)
            ["hasOwnProperty"; "isPrototypeOf"; "propertyIsEnumerable";
             "toLocaleString"; "toString"; "valueOf"; "__defineGetter__";
             "__defineSetter__"; "__lookupGetter__"; "__lookupSetter__"]
  then Inherited (native_function key)
  else Missing.

Definition operator_table (algorithm : string) : Lookup :=
  if String.eqb algorithm "l2" then Own "<->"
  else if String.eqb algorithm "l1" then Own "<+>"
  else if String.eqb algorithm "negative_inner_product" then Own "<#>"
  else if String.eqb algorithm "cosine" then Own "<=>"
  else Object_prototype algorithm.

(** [ToBoolean] of what the lookup gave. *)
Definition truthy (l : Lookup) : bool :=
  match l with
  | Own s => negb (String.eqb s "")
  | Inherited _ => true
  | Missing => false
  end.

(** What the lookup gave, inside a template string. *)
Definition lookup_text (l : Lookup) : string :=
  match l with
  | Own s => s
  | Inherited shown => shown
  | Missing => "undefined"
  end.

End Builders.

(** ** The pool and the effects of the facade *)

Inductive Error : Type :=
| AssertionError (message : string)
| TypeError (message : string)
| SyntaxError (input : string)
| BackendError (cause : string).

Section Effects.

Context {num : Type} {NUM : JSNumber num}.

#[local] Abbreviation value := (value num).
#[local] Abbreviation JSObject := (JSObject num).
#[local] Abbreviation SQLStatement := (SQLStatement num).

(** What [pool.query] resolves to: all the rows of the result. *)
Record QueryResult : Type := mkResult { rows : list JSObject }.

(** The [pg] pool over a backend of state [W]: one call runs one statement
    and either fails or resolves to the whole result. *)
Record Pool (W : Type) : Type := mkPool {
  run_statement : SQLStatement -> W -> (Error + QueryResult) * W
}.
Arguments run_statement {W}.

(** The state an operation runs in: the backend and the journal of the
    statements sent to the pool so far. *)
Definition Session (W : Type) : Type := (W * list SQLStatement)%type.

(** An awaited computation: it fails or returns, and moves the session. *)
Definition Task (W A : Type) : Type :=
  Session W -> (Error + A) * Session W.

Definition ret {W A} (a : A) : Task W A := fun s => (inr a, s).
Definition throw {W A} (e : Error) : Task W A := fun s => (inl e, s).
Definition bind {W A B} (m : Task W A) (k : A -> Task W B) : Task W B :=
  fun s =>
    match m s with
    | (inl e, s') => (inl e, s')
    | (inr a, s') => k a s'
    end.

(** [pool.query(stmt)], settled. *)
Definition pool_query {W} (p : Pool W) (stmt : SQLStatement)
  : Task W QueryResult :=
  fun s =>
    let '(r, w') := run_statement p stmt (fst s) in
    (r, (w', (snd s ++ [stmt])%list)).

(** [assert(condition, message)] *)
Definition assert {W} (condition : bool) (message : string) : Task W unit :=
  if condition then ret tt else throw (AssertionError message).

(** [AsyncTransform.from(promise)]: the stream of the elements of the array
    the promise resolves to; a rejected promise is a stream that fails when
    it is read. *)
Definition AsyncReadStream (A : Type) : Type := (Error + list A)%type.

(** [promise.then(f)] where [f] may throw. *)
Definition promise_then {A B} (p : Error + A) (f : A -> Error + B)
  : Error + B :=
  match p with
  | inl e => inl e
  | inr a => f a
  end.

(** [array.map(f)] where [f] may throw: the first failure is the outcome. *)
Fixpoint map_throwing {A B} (f : A -> Error + B) (l : list A)
  : Error + list B :=
  match l with
  | [] => inr []
  | a :: l' =>
      match f a with
      | inl e => inl e
      | inr b =>
          match map_throwing f l' with
          | inl e => inl e
          | inr bs => inr (b :: bs)
          end
      end
  end.

(** ** The text of a vector, read back

    [vector_of_text] reads the texts the store writes for a vector: a
    bracketed, comma-separated list of JSON numbers without white space.  It
    answers [None] for every other text, which says nothing of what
    [JSON.parse] makes of that text. *)

(** The pieces of [s] between the occurrences of [c]. *)
Fixpoint split_on (c : ascii) (s : string) : list string :=
  match s with
  | EmptyString => [EmptyString]
  | String a rest =>
      if Ascii.eqb a c then EmptyString :: split_on c rest
      else match split_on c rest with
           | piece :: pieces => String a piece :: pieces
           | [] => [String a EmptyString]
           end
  end.

(** [s] without its last character, when that character is [c]. *)
Fixpoint strip_last (c : ascii) (s : string) : option string :=
  match s with
  | EmptyString => None
  | String a EmptyString => if Ascii.eqb a c then Some EmptyString else None
  | String a rest =>
      match strip_last c rest with
      | Some rest' => Some (String a rest')
      | None => None
      end
  end.

Definition parse_number (token : string) : option num :=
  if is_json_number token then JSON_number token else None.

Fixpoint parse_numbers (tokens : list string) : option (list num) :=
  match tokens with
  | [] => Some []
  | t :: ts =>
      match parse_number t, parse_numbers ts with
      | Some n, Some ns => Some (n :: ns)
      | _, _ => None
      end
  end.

Definition vector_of_text (s : string) : option (list num) :=
  match s with
  | String c body =>
      if Ascii.eqb c "[" then
        match strip_last "]" body with
        | Some EmptyString => Some []
        | Some inner => parse_numbers (split_on "," inner)
        | None => None
        end
      else None
  | EmptyString => None
  end.

End Effects.

(** ** [JSON.parse]

    The built-in is a parameter of the development, as the numbers are:
    [JSON_parse s] is the value [JSON.parse] returns for the text [s], and
    [None] when it raises its [SyntaxError].  The law is what the JSON
    grammar gives for a bracketed list of number tokens: the array of the
    numbers the tokens denote. *)
Class JSONRuntime (num : Type) {NUM : JSNumber num} : Type := {
  JSON_parse : string -> option (value num);
  JSON_parse_vector : forall (s : string) (v : list num),
    vector_of_text s = Some v -> JSON_parse s = Some (VArr (map VNum v))
}.

Arguments QueryResult : clear implicits.
Arguments Pool : clear implicits.
Arguments mkResult {num} rows.
Arguments rows {num} q.
Arguments mkPool {num W} run_statement.
Arguments run_statement {num W} p stmt w.
Arguments Session : clear implicits.
Arguments Task : clear implicits.

Declare Scope task_scope.
Delimit Scope task_scope with task.
Notation "x <- m ;; k" := (bind m (fun x => k))
  (at level 61, m at next level, right associativity) : task_scope.

(** ** The vector store *)

Section Store.

Context {num : Type} {NUM : JSNumber num} {JSON : JSONRuntime num} {W : Type}.

#[local] Abbreviation value := (value num).
#[local] Abbreviation JSObject := (JSObject num).
#[local] Abbreviation SQLStatement := (SQLStatement num).
#[local] Abbreviation QueryResult := (QueryResult num).
#[local] Abbreviation Pool := (Pool num W).
#[local] Abbreviation Task := (Task num W).

Open Scope task_scope.

Record PostgresVectorStoreConfig : Type := mkConfig {
  config_pool : Pool;
  config_algorithm : option string;
  config_mapEmbeddingColumn : option (string -> string);
  config_documentScope : option JSObject;
  config_embeddingScope : option JSObject;
  config_documentTable : option string;
  config_embeddingTable : option string
}.

Record PostgresVectorStore : Type := mkStore {
  pool : Pool;
  mapEmbeddingColumn : string -> string;
  documentScope : JSObject;
  embeddingScope : JSObject;
  algorithm : string;
  documentTable : string;
  embeddingTable : string
}.

(** [a ?? b] on an optional configuration field. *)
Definition or_default {A} (a : option A) (b : A) : A :=
  match a with Some x => x | None => b end.

Definition constructor (config : PostgresVectorStoreConfig)
  : PostgresVectorStore :=
  {| pool := config_pool config;
     mapEmbeddingColumn :=
       or_default (config_mapEmbeddingColumn config) (fun columnName => columnName);
     documentScope := or_default (config_documentScope config) [];
     embeddingScope := or_default (config_embeddingScope config) [];
     algorithm := or_default (config_algorithm config) "cosine";
     documentTable := or_default (config_documentTable config) "documents";
     embeddingTable := or_default (config_embeddingTable config) "embeddings" |}.

Definition where_id : string := " WHERE " ++ dq ++ "id" ++ dq ++ " = ".

(** [scopeFilter.text.length > 0] *)
Definition has_text (st : SQLStatement) : bool :=
  Nat.ltb 0 (String.length (text st)).

(** The statement of [getDocumentByReference]. *)
Definition lookup_statement (this : PostgresVectorStore) (reference : value)
  : SQLStatement :=
  let stmt :=
    stmt_append
      (stmt_append_text (SQL0 "SELECT * FROM ")
                        (createIdentifier (documentTable this)))
      (SQL1 where_id reference "") in
  let scopeFilter := createScopeFilter (documentScope this) in
  if has_text scopeFilter
  then stmt_append (stmt_append stmt (SQL0 " AND ")) scopeFilter
  else stmt.

Definition getDocumentByReference (this : PostgresVectorStore)
  (reference : value) : Task (option JSObject) :=
  result <- pool_query (pool this) (lookup_statement this reference) ;;
  ret (nth_error (rows result) 0).

(** [filters.forEach((filter, i) => ...)] *)
Definition filter_step (acc : SQLStatement * nat) (filter : SQLStatement)
  : SQLStatement * nat :=
  let '(stmt, i) := acc in
  let stmt := if Nat.ltb 0 i then stmt_append stmt (SQL0 " AND ") else stmt in
  (stmt_append stmt filter, S i).

(** The text bound for a vector: ["[" + vector.join(",") + "]"]. *)
Definition vector_literal (vector : list num) : string :=
  "[" ++ Array_join (map VNum vector) "," ++ "]".

(** The statement of [query], for the operator text the lookup gave. *)
Definition query_statement (this : PostgresVectorStore) (operator : string)
  (vector : list num) (documents : option (list value)) (limit offset : num)
  : SQLStatement :=
  let vectorCol := mapEmbeddingColumn this "vector" in
  let textCol := mapEmbeddingColumn this "text" in
  let docCol := mapEmbeddingColumn this "document" in
  let stmt := SQL0 "SELECT " in
  let stmt :=
    stmt_append (stmt_append_text stmt (createIdentifier docCol))
                (SQL0 " AS document, ") in
  let stmt :=
    stmt_append (stmt_append_text stmt (createIdentifier textCol))
                (SQL0 " AS text, ") in
  let stmt :=
    stmt_append (stmt_append_text stmt (createIdentifier vectorCol))
                (SQL0 " AS vector, ") in
  let stmt :=
    stmt_append stmt
      (stmt_append
         (stmt_append
            (stmt_append_text
               (stmt_append_text (SQL0 "") (createIdentifier vectorCol))
               (" " ++ operator ++ " "))
            (SQL1 "" (VStr (vector_literal vector)) ""))
         (SQL0 " AS distance ")) in
  let stmt :=
    stmt_append_text (stmt_append stmt (SQL0 "FROM "))
                     (createIdentifier (embeddingTable this)) in
  let filters : list SQLStatement := [] in
  let scopeFilter := createScopeFilter (embeddingScope this) in
  let filters :=
    if has_text scopeFilter then (filters ++ [scopeFilter])%list
    else filters in
  let filters :=
    match documents with
    | Some keys =>
        (filters ++
         [stmt_append (stmt_append_text (SQL0 "") (createIdentifier docCol))
                      (SQL1 " = ANY(" (VArr keys) ")")])%list
    | None => filters
    end in
  let stmt :=
    if Nat.ltb 0 (List.length filters)
    then fst (fold_left filter_step filters
                        (stmt_append stmt (SQL0 " WHERE "), 0))
    else stmt in
  let stmt := stmt_append stmt (SQL0 " ORDER BY distance ASC") in
  stmt_append stmt (SQL2 " LIMIT " (VNum limit) " OFFSET " (VNum offset) "").

(** One element of the stream [query] returns. *)
Record EmbeddingResult : Type := mkEmbeddingResult {
  result_text : value;
  result_vector : value;
  result_distance : value;
  result_document : value
}.

(** The callback of [res.rows.map].  [JSON.parse] is given the column as it
    is and converts it to a string first; its [SyntaxError] is recorded with
    the text it could not read. *)
Definition decode_row (row : JSObject) : Error + EmbeddingResult :=
  let source := ToString (get_prop row "vector") in
  match JSON_parse source with
  | Some v =>
      inr {| result_text := get_prop row "text";
             result_vector := v;
             result_distance := get_prop row "distance";
             result_document := get_prop row "document" |}
  | None => inl (SyntaxError source)
  end.

(** [query]: the assertion is raised by the call itself; the statement is
    sent by the call, and its outcome is the stream. *)
Definition query (this : PostgresVectorStore) (vector : list num)
  (documents : option (list value)) (limit offset : option num)
  : Task (AsyncReadStream EmbeddingResult) :=
  let limit := or_default limit (Number_of_Z 10) in
  let offset := or_default offset (Number_of_Z 0) in
  let operator := operator_table (algorithm this) in
  _ <- assert (truthy operator)
         ("Unsupported distance algorithm: " ++ algorithm this) ;;
  let stmt :=
    query_statement this (lookup_text operator) vector documents limit offset in
  fun s =>
    let '(res, s') := pool_query (pool this) stmt s in
    (inr (promise_then res
            (fun result => map_throwing decode_row (rows result))), s').

(** The object literal [{ ...embedding, document }]. *)
Definition embedding_row (embedding : JSObject) (document : value) : JSObject :=
  CreateDataProperty (spread [] embedding) "document" document.

Definition embedding_insert (this : PostgresVectorStore) (document : value)
  (embedding : JSObject) : SQLStatement :=
  createInsertQuery (embeddingTable this) (embedding_row embedding document)
                    (embeddingScope this) (Some (mapEmbeddingColumn this)).

(** [append]: the [for await] loop over the elements of the input stream. *)
Fixpoint append (this : PostgresVectorStore) (document : value)
  (embeddings : list JSObject) : Task unit :=
  match embeddings with
  | [] => ret tt
  | embedding :: rest =>
      _ <- pool_query (pool this) (embedding_insert this document embedding) ;;
      append this document rest
  end.

Definition delete_statement (this : PostgresVectorStore) (document : value)
  : SQLStatement :=
  let stmt :=
    stmt_append
      (stmt_append_text (SQL0 "DELETE FROM ")
                        (createIdentifier (documentTable this)))
      (SQL1 where_id document "") in
  let scopeFilter := createScopeFilter (documentScope this) in
  if has_text scopeFilter
  then stmt_append (stmt_append stmt (SQL0 " AND ")) scopeFilter
  else stmt.

Definition delete (this : PostgresVectorStore) (document : value)
  : Task unit :=
  _ <- pool_query (pool this) (delete_statement this document) ;;
  ret tt.

Definition createDocument (this : PostgresVectorStore) (document : JSObject)
  : Task value :=
  result <- pool_query (pool this)
              (createInsertQuery (documentTable this) document
                                 (documentScope this) None) ;;
  _ <- assert (Nat.eqb (List.length (rows result)) 1)
         "Expected one row to be returned" ;;
  match nth_error (rows result) 0 with
  | Some row => ret (get_prop row "id")
  | None => throw (TypeError "Cannot read properties of undefined")
  end.

Definition documents_statement (this : PostgresVectorStore) : SQLStatement :=
  let scopeFilter := createScopeFilter (documentScope this) in
  let stmt :=
    stmt_append_text (SQL0 "SELECT * FROM ")
                     (createIdentifier (documentTable this)) in
  if has_text scopeFilter
  then stmt_append (stmt_append stmt (SQL0 " WHERE ")) scopeFilter
  else stmt.

Definition getDocuments (this : PostgresVectorStore)
  : Task (AsyncReadStream JSObject) :=
  fun s =>
    let '(res, s') := pool_query (pool this) (documents_statement this) s in
    (inr (promise_then res (fun result => inr (rows result))), s').

(** Reading a stream: [transform().toArray()] gives every element, and the
    first element is the first one the consumer receives. *)
Definition toArray {A} (stream : AsyncReadStream A) : Error + list A := stream.

(** How many elements the stream holds in memory before the consumer has
    read any. *)
Definition buffered {A} (stream : AsyncReadStream A) : nat :=
  match stream with
  | inr elements => List.length elements
  | inl _ => 0
  end.

End Store.

Arguments PostgresVectorStoreConfig : clear implicits.
Arguments PostgresVectorStore : clear implicits.
Arguments EmbeddingResult : clear implicits.

(** ** What a generated statement is made of

    A statement read as a sequence of fragments: fixed SQL text, a name
    passed through [createIdentifier], or a bound parameter. *)

Section Fragments.

Context {num : Type} {NUM : JSNumber num}.

#[local] Abbreviation value := (value num).
#[local] Abbreviation JSObject := (JSObject num).
#[local] Abbreviation SQLStatement := (SQLStatement num).

Inductive Fragment : Type :=
| Keyword (sql : string)
| Identifier (name : string)
| Bound (v : value).

Definition add_fragment (st : SQLStatement) (f : Fragment) : SQLStatement :=
  match f with
  | Keyword sql => stmt_append_text st sql
  | Identifier name => stmt_append_text st (createIdentifier name)
  | Bound v => stmt_append st (SQL1 "" v "")
  end.

Definition add_fragments (st : SQLStatement) (fs : list Fragment)
  : SQLStatement :=
  fold_left add_fragment fs st.

Definition assemble (fs : list Fragment) : SQLStatement :=
  add_fragments (SQL0 "") fs.

(** The text of a sequence of fragments when [n] parameters precede it:
    a parameter shows as its position only. *)
Fixpoint render (n : nat) (fs : list Fragment) : string :=
  match fs with
  | [] => ""
  | Keyword sql :: fs' => sql ++ render n fs'
  | Identifier name :: fs' => createIdentifier name ++ render n fs'
  | Bound _ :: fs' => "$" ++ show_nat (S n) ++ render (S n) fs'
  end.

Fixpoint bound_values (fs : list Fragment) : list value :=
  match fs with
  | [] => []
  | Bound v :: fs' => v :: bound_values fs'
  | _ :: fs' => bound_values fs'
  end.

Fixpoint keywords (fs : list Fragment) : list string :=
  match fs with
  | [] => []
  | Keyword sql :: fs' => sql :: keywords fs'
  | _ :: fs' => keywords fs'
  end.

Fixpoint identifiers (fs : list Fragment) : list string :=
  match fs with
  | [] => []
  | Identifier name :: fs' => name :: identifiers fs'
  | _ :: fs' => identifiers fs'
  end.

(** The fixed SQL text of the store: every literal of its tagged templates,
    and the four operators. *)
Definition sql_vocabulary : list string :=
  [" AND "; " = "; "INSERT INTO "; " ("; ", "; ") VALUES ("; returning_id;
   "SELECT * FROM "; where_id; "DELETE FROM "; " WHERE ";
   "SELECT "; " AS document, "; " AS text, "; " AS vector, ";
   " AS distance "; "FROM "; " = ANY("; ")"; " ORDER BY distance ASC";
   " LIMIT "; " OFFSET ";
   " <-> "; " <+> "; " <#> "; " <=> "].

(** The fragments of a scope filter: one clause per entry, [AND] between
    two clauses. *)
Definition scope_clause (entry : string * value) : list Fragment :=
  [Identifier (fst entry); Keyword " = "; Bound (nullish (snd entry) VNull)].

Fixpoint scope_fragments (entries : list (string * value)) : list Fragment :=
  match entries with
  | [] => []
  | [e] => scope_clause e
  | e :: rest => (scope_clause e ++ Keyword " AND " :: scope_fragments rest)%list
  end.

(** [items] with [sep] between two of them. *)
Fixpoint separated (sep : Fragment) (items : list Fragment) : list Fragment :=
  match items with
  | [] => []
  | [x] => [x]
  | x :: rest => x :: sep :: separated sep rest
  end.

Definition column_of (mapFunction : option (string -> string)) (key : string)
  : string :=
  match mapFunction with Some f => f key | None => key end.

(** The fragments of an insert over the merged entries. *)
Definition insert_fragments (table : string) (merged : list (string * value))
  (mapFunction : option (string -> string)) : list Fragment :=
  ([Keyword "INSERT INTO "; Identifier table; Keyword " ("]
   ++ separated (Keyword ", ")
        (map (fun e => Identifier (column_of mapFunction (fst e))) merged)
   ++ [Keyword ") VALUES ("]
   ++ separated (Keyword ", ")
        (map (fun e => Bound (bound_form (snd e))) merged)
   ++ [Keyword returning_id])%list.

(** [WHERE id = reference], and the scope clauses after [AND]. *)
Definition by_id_fragments (verb table : string) (reference : value)
  (scope : JSObject) : list Fragment :=
  ([Keyword verb; Identifier table; Keyword where_id; Bound reference]
   ++ match scope with
      | [] => []
      | _ => Keyword " AND " :: scope_fragments scope
      end)%list.

Definition documents_fragments (table : string) (scope : JSObject)
  : list Fragment :=
  ([Keyword "SELECT * FROM "; Identifier table]
   ++ match scope with
      | [] => []
      | _ => Keyword " WHERE " :: scope_fragments scope
      end)%list.

Definition where_fragments (scope : JSObject) (docCol : string)
  (documents : option (list value)) : list Fragment :=
  match scope, documents with
  | [], None => []
  | [], Some keys =>
      [Keyword " WHERE "; Identifier docCol; Keyword " = ANY(";
       Bound (VArr keys); Keyword ")"]
  | _, None => Keyword " WHERE " :: scope_fragments scope
  | _, Some keys =>
      (Keyword " WHERE " :: scope_fragments scope
       ++ [Keyword " AND "; Identifier docCol; Keyword " = ANY(";
           Bound (VArr keys); Keyword ")"])%list
  end.

Definition query_fragments (operator : string)
  (vectorCol textCol docCol table : string) (scope : JSObject)
  (vector : list num) (documents : option (list value)) (limit offset : num)
  : list Fragment :=
  ([Keyword "SELECT ";
    Identifier docCol; Keyword " AS document, ";
    Identifier textCol; Keyword " AS text, ";
    Identifier vectorCol; Keyword " AS vector, ";
    Identifier vectorCol; Keyword (" " ++ operator ++ " ");
    Bound (VStr (vector_literal vector)); Keyword " AS distance ";
    Keyword "FROM "; Identifier table]
   ++ where_fragments scope docCol documents
   ++ [Keyword " ORDER BY distance ASC";
       Keyword " LIMIT "; Bound (VNum limit);
       Keyword " OFFSET "; Bound (VNum offset)])%list.

End Fragments.

Arguments Fragment : clear implicits.

(** ** The vocabulary of the statements about the store *)

Section Vocabulary.

Context {num : Type} {NUM : JSNumber num}.

#[local] Abbreviation value := (value num).
#[local] Abbreviation JSObject := (JSObject num).
#[local] Abbreviation SQLStatement := (SQLStatement num).
#[local] Abbreviation Fragment := (Fragment num).

(** [st] is put together from the fragments [fs]: its text is fixed SQL
    (from the vocabulary, or one of [extra]), the [names] in this order, each
    through [createIdentifier], and the positions of its parameters; its
    bound values are [data]. *)
Definition built_from (fs : list Fragment) (extra : list string)
  (names : list string) (data : list value) (st : SQLStatement) : Prop :=
  st = assemble fs
  /\ text st = render 0 fs
  /\ Forall (fun sql => In sql (extra ++ sql_vocabulary)%list) (keywords fs)
  /\ identifiers fs = names
  /\ values st = data.

(** The values a scope binds, in entry order. *)
Definition scope_values (scope : JSObject) : list value :=
  map (fun e => nullish (snd e) VNull) scope.

(** The clauses of a scope filter over [keys], the first one bound at
    position [i]. *)
Fixpoint scope_clauses (i : nat) (keys : list string) : list string :=
  match keys with
  | [] => []
  | key :: keys' =>
      (createIdentifier key ++ " = $" ++ show_nat i) :: scope_clauses (S i) keys'
  end.

(** A clause that follows another one. *)
Definition and_clause (e : string * value) : list Fragment :=
  Keyword " AND " :: scope_clause e.

(** The names and the values of the filter of [query]. *)
Definition filter_names (scope : JSObject) (docCol : string)
  (documents : option (list value)) : list string :=
  (Object_keys scope
   ++ match documents with Some _ => [docCol] | None => [] end)%list.

Definition filter_values (scope : JSObject)
  (documents : option (list value)) : list value :=
  (scope_values scope
   ++ match documents with Some keys => [VArr keys] | None => [] end)%list.

(** [$i], ..., [$(i + count - 1)] *)
Definition placeholders (i count : nat) : list string :=
  map (fun p => "$" ++ show_nat p) (seq i count).




(** [text] ends with [suffix]. *)
Definition ends_with (text suffix : string) : Prop :=
  exists before, text = before ++ suffix.

End Vocabulary.

Section Runs.

Context {num : Type} {NUM : JSNumber num} {JSON : JSONRuntime num}
  {W : Type}.

#[local] Abbreviation SQLStatement := (SQLStatement num).
#[local] Abbreviation Pool := (Pool num W).

(** The backend after the pool has run [stmts] one after the other, each on
    its own. *)
Definition replay (p : Pool) (stmts : list SQLStatement) (w : W) : W :=
  fold_left (fun w st => snd (run_statement p st w)) stmts w.

(** The position and the error of the first statement of [stmts] that fails
    when they are run in order. *)
Fixpoint first_failure (p : Pool) (stmts : list SQLStatement) (w : W)
  : option (nat * Error) :=
  match stmts with
  | [] => None
  | st :: rest =>
      match run_statement p st w with
      | (inl e, _) => Some (0, e)
      | (inr _, w') =>
          match first_failure p rest w' with
          | Some (k, e) => Some (S k, e)
          | None => None
          end
      end
  end.

End Runs.

(** ** A concrete runtime: integer-valued numbers and a scripted pool *)

Definition Z_toString (z : Z) : string := NilEmpty.string_of_int (Z.to_int z).

Definition Z_of_token (s : string) : option Z :=
  match NilEmpty.int_of_string s with
  | Some d => Some (Z.of_int d)
  | None => None
  end.

#[export] Instance Z_JSNumber : JSNumber Z.
Proof.
  refine {| Number_of_Z := fun z => z;
            Number_toString := Z_toString;
            JSON_number := Z_of_token |}.
  intros x _. unfold Z_of_token, Z_toString.
  rewrite NilEmpty.isi. now rewrite DecimalZ.of_to.
Defined.

(** What this runtime reads besides the text of a vector: white space
    around a text and around the elements of an array, the three literal
    names, a number, and an array of those.  Its numbers are the integers,
    written in decimal digits; it reads neither fractions and exponents nor
    strings, objects and nested arrays. *)
Definition is_space (c : ascii) : bool :=
  existsb (Ascii.eqb c) [" "%char; "009"%char; "010"%char; "013"%char].

Fixpoint drop_leading_space (s : string) : string :=
  match s with
  | String c rest => if is_space c then drop_leading_space rest else s
  | EmptyString => EmptyString
  end.

Fixpoint drop_trailing_space (s : string) : string :=
  match s with
  | String c rest =>
      match drop_trailing_space rest with
      | EmptyString => if is_space c then EmptyString else String c EmptyString
      | rest' => String c rest'
      end
  | EmptyString => EmptyString
  end.

Definition trim (s : string) : string :=
  drop_trailing_space (drop_leading_space s).

Definition Z_scalar (token : string) : option (value Z) :=
  if String.eqb token "null" then Some VNull
  else if String.eqb token "true" then Some (VBool true)
  else if String.eqb token "false" then Some (VBool false)
  else if is_json_number token then option_map VNum (Z_of_token token)
  else None.

Fixpoint Z_scalars (tokens : list string) : option (list (value Z)) :=
  match tokens with
  | [] => Some []
  | t :: ts =>
      match Z_scalar (trim t), Z_scalars ts with
      | Some x, Some xs => Some (x :: xs)
      | _, _ => None
      end
  end.

Definition Z_spaced (s : string) : option (value Z) :=
  match trim s with
  | String c body =>
      if Ascii.eqb c "[" then
        match strip_last "]" body with
        | Some inner =>
            match trim inner with
            | EmptyString => Some (VArr [])
            | _ => option_map VArr (Z_scalars (split_on "," inner))
            end
        | None => None
        end
      else Z_scalar (String c body)
  | EmptyString => None
  end.

Definition Z_JSON_parse (s : string) : option (value Z) :=
  match vector_of_text s with
  | Some v => Some (VArr (map VNum v))
  | None => Z_spaced s
  end.

#[export] Instance Z_JSON : JSONRuntime Z.
Proof.
  refine {| JSON_parse := Z_JSON_parse |}.
  intros s v H. unfold Z_JSON_parse. now rewrite H.
Defined.

(** A pool that answers the statements it receives with the outcomes it was
    given, in order, and with no rows once they are used up. *)
Definition scripted_pool : Pool Z (list (Error + QueryResult Z)) :=
  mkPool
    (fun _ script =>
       match script with
       | outcome :: script' => (outcome, script')
       | [] => (inr (mkResult []), [])
       end).

Definition scripted_store (algorithm : option string)
  (scope : option (JSObject Z))
  : PostgresVectorStore Z (list (Error + QueryResult Z)) :=
  constructor
    {| config_pool := scripted_pool;
       config_algorithm := algorithm;
       config_mapEmbeddingColumn := None;
       config_documentScope := scope;
       config_embeddingScope := scope;
       config_documentTable := None;
       config_embeddingTable := None |}.

(** Two embeddings, a row as the distance query returns it, the order of
    two numbers, and the answer to an insert. *)
Definition hello : JSObject Z :=
  [("text", VStr "Hello"); ("vector", VArr [VNum 1%Z; VNum 2%Z; VNum 3%Z])].

Definition world : JSObject Z :=
  [("text", VStr "World"); ("vector", VArr [VNum 4%Z; VNum 5%Z; VNum 6%Z])].

Definition found_row (text : string) (vector : string) (distance : Z)
  : JSObject Z :=
  [("document", VNum 7%Z); ("text", VStr text); ("vector", VStr vector);
   ("distance", VNum distance)].


Definition one_row (id : Z) : QueryResult Z := mkResult [[("id", VNum id)]].

(** ** Reading a quoted identifier back

    The lexical rule of a delimited identifier: an opening quote, then the
    characters of the name with a doubled quote standing for one quote, up
    to the first quote that is not doubled. *)

(** The name and what follows it, after the opening quote. *)
Fixpoint read_quoted (s : string) : option (string * string) :=
  match s with
  | EmptyString => None
  | String c rest =>
      if Ascii.eqb c dquote then
        match rest with
        | String c' rest' =>
            if Ascii.eqb c' dquote then
              match read_quoted rest' with
              | Some (name, after) => Some (String dquote name, after)
              | None => None
              end
            else Some (EmptyString, rest)
        | EmptyString => Some (EmptyString, EmptyString)
        end
      else
        match read_quoted rest with
        | Some (name, after) => Some (String c name, after)
        | None => None
        end
  end.

Definition read_identifier (s : string) : option (string * string) :=
  match s with
  | String c rest => if Ascii.eqb c dquote then read_quoted rest else None
  | EmptyString => None
  end.

(** [s] starts with the character [c]. *)
Definition begins_with (c : ascii) (s : string) : bool :=
  match s with
  | String a _ => Ascii.eqb a c
  | EmptyString => false
  end.

(** The number of double quotes in [s]. *)
Fixpoint count_quotes (s : string) : nat :=
  match s with
  | EmptyString => 0
  | String c rest =>
      (if Ascii.eqb c dquote then 1 else 0) + count_quotes rest
  end.

(** ** The algorithms [query] lets through *)

Definition supported_algorithms : list string :=
  ["l2"; "l1"; "negative_inner_product"; "cosine"].

Definition Object_prototype_keys : list string :=
  ["constructor"; "__proto__"; "hasOwnProperty"; "isPrototypeOf";
   "propertyIsEnumerable"; "toLocaleString"; "toString"; "valueOf";
   "__defineGetter__"; "__defineSetter__"; "__lookupGetter__";
   "__lookupSetter__"].

Section QueryText.

Context {num : Type} {NUM : JSNumber num}.

(** The [WHERE] part of the text of [query]: the scope clauses from the
    second parameter on, then the allow-list of documents. *)
Definition where_text (scope : JSObject num) (docCol : string)
  (documents : option (list (value num))) : string :=
  match scope, documents with
  | [], None => ""
  | [], Some _ => " WHERE " ++ createIdentifier docCol ++ " = ANY($2)"
  | _, None =>
      " WHERE " ++ join_strings " AND " (scope_clauses 2 (Object_keys scope))
  | _, Some _ =>
      " WHERE " ++ join_strings " AND " (scope_clauses 2 (Object_keys scope))
      ++ " AND " ++ createIdentifier docCol
      ++ " = ANY($" ++ show_nat (List.length scope + 2) ++ ")"
  end.

(** How many values the filter of [query] binds. *)
Definition filter_count (scope : JSObject num)
  (documents : option (list (value num))) : nat :=
  List.length scope + match documents with Some _ => 1 | None => 0 end.

End QueryText.

(** A store on the scripted pool that is given the pool and nothing else. *)
Definition plain_store : PostgresVectorStore Z (list (Error + QueryResult Z)) :=
  scripted_store None None.

(** A column mapping that renames every column. *)
Definition prefixed (columnName : string) : string := "e_" ++ columnName.

(** A store on the scripted pool whose embedding columns are all renamed,
    with one scope entry. *)
Definition renaming_store
  : PostgresVectorStore Z (list (Error + QueryResult Z)) :=
  {| pool := scripted_pool;
     mapEmbeddingColumn := prefixed;
     documentScope := [];
     embeddingScope := [("scope", VStr "test")];
     algorithm := "cosine";
     documentTable := "documents";
     embeddingTable := "embeddings" |}.

(** A name with a quote in it. *)
Definition quoted_name : string := "a" ++ dq ++ "b".

(** ** Words for the order of the merged keys and for the inserts *)

(** The double quote, to spell SQL text out. *)
Definition quote_mark : string := String "034"%char EmptyString.

(** [key] is the text of an array index. *)
Definition is_index (key : string) : bool :=
  match array_index key with Some _ => true | None => false end.

(** Both keys are array indices, and the first is the smaller one. *)
Definition index_before (a b : string) : Prop :=
  match array_index a, array_index b with
  | Some i, Some j => (i < j)%N
  | _, _ => False
  end.

(** The order in which an object lists its keys: the array indices first,
    each before the larger ones, then the other keys. *)
Inductive property_order : list string -> Prop :=
| order_others (keys : list string) :
    Forall (fun k => is_index k = false) keys -> property_order keys
| order_index (key : string) (keys : list string) :
    is_index key = true ->
    Forall (fun k => is_index k = true -> index_before key k) keys ->
    property_order keys ->
    property_order (key :: keys).

Section InsertedRows.

Context {num : Type} {NUM : JSNumber num}.

(** [st] is the insert of [row] into [table]: it names the columns of the
    entries of [row], in their order and through [column], binds their
    values in the same order, and returns the generated key. *)
Definition inserts_row (table : string) (column : string -> string)
  (row : list (string * value num)) (st : SQLStatement num) : Prop :=
  text st
  = "INSERT INTO " ++ createIdentifier table ++ " ("
    ++ String.concat ", "
         (map (fun e => createIdentifier (column (fst e))) row)
    ++ ") VALUES ("
    ++ String.concat ", " (placeholders 1 (List.length row))
    ++ ") RETURNING " ++ quote_mark ++ "id" ++ quote_mark
  /\ values st = map (fun e => bound_form (snd e)) row.

(** [row] is the embedding with the [document] key set to [document], over
    the entries of [scope]: it has the keys of the three, each once, and
    under a key the value of the first of [document], the embedding and the
    scope that has the key. *)
Definition embedding_entries (scope embedding : JSObject num)
  (document : value num) (row : list (string * value num)) : Prop :=
  NoDup (map fst row)
  /\ (forall key, In key (map fst row)
                  <-> key = "document" \/ In key (map fst embedding)
                      \/ In key (map fst scope))
  /\ (forall key, get_prop row key
                  = if String.eqb key "document" then document
                    else if has_own embedding key then get_prop embedding key
                    else get_prop scope key).

End InsertedRows.


(** * Properties *)

(** ** Strings and statements *)

Lemma string_app_nil_r (s : string) : s ++ "" = s.
Proof. induction s as [|c s IH]; simpl; [reflexivity | now rewrite IH]. Qed.

Lemma string_app_assoc (a b c : string) : (a ++ b) ++ c = a ++ (b ++ c).
Proof. induction a as [|x a IH]; simpl; [reflexivity | now rewrite IH]. Qed.

Lemma string_length_app (a b : string) :
  String.length (a ++ b) = String.length a + String.length b.
Proof. induction a as [|x a IH]; simpl; [reflexivity | now rewrite IH]. Qed.

(** Appends of strings, associated to the right. *)
Ltac string_assoc :=
  repeat first [rewrite string_app_assoc | progress cbn [String.append]].

Section StatementAlgebra.

Context {num : Type} {NUM : JSNumber num}.

#[local] Abbreviation value := (value num).
#[local] Abbreviation SQLStatement := (SQLStatement num).
#[local] Abbreviation Fragment := (Fragment num).

Lemma add_to_last_nil (l : list string) : add_to_last l "" = l.
Proof.
  induction l as [|x l IH]; [reflexivity|].
  destruct l as [|y l]; simpl in *.
  - now rewrite string_app_nil_r.
  - now rewrite IH.
Qed.

Lemma add_to_last_twice (l : list string) (s t : string) :
  add_to_last (add_to_last l s) t = add_to_last l (s ++ t).
Proof.
  induction l as [|x l IH]; [reflexivity|].
  destruct l as [|y l].
  - simpl. now rewrite string_app_assoc.
  - change (add_to_last (x :: y :: l) s) with (x :: add_to_last (y :: l) s).
    change (add_to_last (x :: y :: l) (s ++ t))
      with (x :: add_to_last (y :: l) (s ++ t)).
    rewrite <- IH.
    destruct (add_to_last (y :: l) s) eqn:E; [|reflexivity].
    destruct l; discriminate.
Qed.

Lemma add_to_last_into (l m : list string) (s : string) :
  m <> [] -> add_to_last (l ++ m) s = (l ++ add_to_last m s)%list.
Proof.
  intros Hm. induction l as [|x l IH]; [reflexivity|].
  simpl app. destruct (l ++ m)%list eqn:E.
  - destruct l; [simpl in E; contradiction | discriminate].
  - change (add_to_last (x :: s0 :: l0) s) with (x :: add_to_last (s0 :: l0) s).
    now rewrite IH.
Qed.

Lemma add_to_last_snoc (l : list string) (x s : string) :
  add_to_last (l ++ [x]) s = (l ++ [(x ++ s)%string])%list.
Proof. rewrite add_to_last_into; [reflexivity | discriminate]. Qed.

Lemma add_to_last_nonempty (l : list string) (s : string) :
  l <> [] -> add_to_last l s <> [].
Proof.
  destruct l as [|x [|y l]]; simpl; intros H; [contradiction | |]; discriminate.
Qed.

(** A statement made by a template, or by appending to one, has at least one
    string, and one more string than values. *)
Definition well_formed (st : SQLStatement) : Prop :=
  List.length (strings st) = S (List.length (values st)).

Lemma well_formed_nonempty (st : SQLStatement) :
  well_formed st -> strings st <> [].
Proof. unfold well_formed. destruct (strings st); [discriminate | discriminate]. Qed.

Lemma add_to_last_length (l : list string) (s : string) :
  List.length (add_to_last l s) = List.length l.
Proof.
  induction l as [|x l IH]; [reflexivity|].
  destruct l as [|y l]; [reflexivity|].
  change (add_to_last (x :: y :: l) s) with (x :: add_to_last (y :: l) s).
  simpl List.length in *. now rewrite IH.
Qed.

Lemma stmt_append_SQL0 (st : SQLStatement) (s : string) :
  stmt_append st (SQL0 s) = stmt_append_text st s.
Proof.
  unfold stmt_append, stmt_append_text. simpl. now rewrite !app_nil_r.
Qed.

Lemma stmt_append_empty (st : SQLStatement) : stmt_append st (SQL0 "") = st.
Proof.
  rewrite stmt_append_SQL0. unfold stmt_append_text.
  rewrite add_to_last_nil. now destruct st.
Qed.

Lemma stmt_append_assoc (a b c : SQLStatement) :
  strings b <> [] ->
  stmt_append (stmt_append a b) c = stmt_append a (stmt_append b c).
Proof.
  intros Hb. unfold stmt_append. simpl. f_equal; [|now rewrite app_assoc].
  destruct (strings b) as [|x [|y l]]; [contradiction | |].
  - simpl. rewrite app_nil_r. now rewrite add_to_last_twice.
  - change (add_to_last (x :: y :: l) (hd "" (strings c)))
      with (x :: add_to_last (y :: l) (hd "" (strings c))).
    simpl hd. simpl tl.
    rewrite add_to_last_into by discriminate.
    now rewrite <- app_assoc.
Qed.

Lemma stmt_append_SQL1 (st : SQLStatement) (s t : string) (v : value) :
  stmt_append st (SQL1 s v t)
  = stmt_append_text (stmt_append (stmt_append_text st s) (SQL1 "" v "")) t.
Proof.
  unfold stmt_append, stmt_append_text. simpl. f_equal.
  rewrite add_to_last_nil. now rewrite add_to_last_snoc.
Qed.

Lemma stmt_append_SQL2 (st : SQLStatement) (s t u : string) (v w : value) :
  stmt_append st (SQL2 s v t w u)
  = stmt_append (stmt_append st (SQL1 s v t)) (SQL1 "" w u).
Proof.
  unfold stmt_append. simpl. f_equal.
  - rewrite add_to_last_snoc, string_app_nil_r, <- app_assoc. reflexivity.
  - now rewrite <- app_assoc.
Qed.

Lemma add_fragments_app (st : SQLStatement) (a b : list Fragment) :
  add_fragments st (a ++ b) = add_fragments (add_fragments st a) b.
Proof. apply fold_left_app. Qed.

Lemma add_fragment_nonempty (st : SQLStatement) (f : Fragment) :
  strings st <> [] -> strings (add_fragment st f) <> [].
Proof.
  intros H. destruct f; simpl; try now apply add_to_last_nonempty.
  intro E. apply app_eq_nil in E. destruct E as [E _].
  revert E. now apply add_to_last_nonempty.
Qed.

Lemma add_fragments_nonempty (fs : list Fragment) (st : SQLStatement) :
  strings st <> [] -> strings (add_fragments st fs) <> [].
Proof.
  revert st. induction fs as [|f fs IH]; intros st H; [exact H|].
  apply IH. now apply add_fragment_nonempty.
Qed.

Lemma assemble_nonempty (fs : list Fragment) : strings (assemble fs) <> [].
Proof. apply add_fragments_nonempty. discriminate. Qed.

Lemma stmt_append_add_fragment (st q : SQLStatement) (f : Fragment) :
  strings q <> [] ->
  stmt_append st (add_fragment q f) = add_fragment (stmt_append st q) f.
Proof.
  intros Hq. destruct f; simpl.
  - rewrite <- !stmt_append_SQL0. now rewrite stmt_append_assoc.
  - rewrite <- !stmt_append_SQL0. now rewrite stmt_append_assoc.
  - now rewrite stmt_append_assoc.
Qed.

Lemma stmt_append_add_fragments (fs : list Fragment) (st q : SQLStatement) :
  strings q <> [] ->
  stmt_append st (add_fragments q fs) = add_fragments (stmt_append st q) fs.
Proof.
  revert q. induction fs as [|f fs IH]; intros q Hq; [reflexivity|].
  simpl. rewrite IH by now apply add_fragment_nonempty.
  now rewrite stmt_append_add_fragment.
Qed.

(** Appending an assembled statement adds its fragments. *)
Lemma stmt_append_assemble (st : SQLStatement) (fs : list Fragment) :
  stmt_append st (assemble fs) = add_fragments st fs.
Proof.
  unfold assemble. rewrite stmt_append_add_fragments by discriminate.
  now rewrite stmt_append_empty.
Qed.

Lemma assemble_app (a b : list Fragment) :
  stmt_append (assemble a) (assemble b) = assemble (a ++ b).
Proof. rewrite stmt_append_assemble. unfold assemble. now rewrite add_fragments_app. Qed.

Lemma add_keyword_empty (st : SQLStatement) :
  add_fragments st [Keyword ""] = st.
Proof. simpl. rewrite <- stmt_append_SQL0. apply stmt_append_empty. Qed.

Lemma stmt_append_SQL1_fragments (st : SQLStatement) (s : string) (v : value) :
  stmt_append st (SQL1 s v "") = add_fragments st [Keyword s; Bound v].
Proof.
  rewrite stmt_append_SQL1. simpl.
  rewrite <- stmt_append_SQL0. apply stmt_append_empty.
Qed.

End StatementAlgebra.

(** ** The text and the values of an assembled statement *)

Section Rendering.

Context {num : Type} {NUM : JSNumber num}.

#[local] Abbreviation value := (value num).
#[local] Abbreviation SQLStatement := (SQLStatement num).
#[local] Abbreviation Fragment := (Fragment num).

Lemma reduce_text_snoc (rest : list string) (prev : string) (i : nat)
  (x : string) :
  reduce_text prev i (rest ++ [x])
  = reduce_text prev i rest ++ "$" ++ show_nat (i + List.length rest) ++ x.
Proof.
  revert prev i. induction rest as [|c rest IH]; intros prev i; simpl.
  - now rewrite Nat.add_0_r.
  - rewrite IH. now rewrite Nat.add_succ_r.
Qed.

Lemma reduce_text_add_to_last (rest : list string) (prev : string) (i : nat)
  (s : string) :
  rest <> [] ->
  reduce_text prev i (add_to_last rest s) = reduce_text prev i rest ++ s.
Proof.
  revert prev i. induction rest as [|c rest IH]; intros prev i H;
    [contradiction|].
  destruct rest as [|d rest].
  - simpl. string_assoc. reflexivity.
  - change (add_to_last (c :: d :: rest) s)
      with (c :: add_to_last (d :: rest) s).
    simpl reduce_text at 1. rewrite IH by discriminate. reflexivity.
Qed.

Lemma text_append_text (st : SQLStatement) (s : string) :
  strings st <> [] -> text (stmt_append_text st s) = text st ++ s.
Proof.
  destruct st as [[|s0 [|s1 rest]] vs]; unfold text, stmt_append_text;
    cbn [strings values]; intros H; [contradiction | reflexivity |].
  change (add_to_last (s0 :: s1 :: rest) s)
    with (s0 :: add_to_last (s1 :: rest) s).
  cbv iota. now rewrite reduce_text_add_to_last.
Qed.

Lemma text_append_bound (st : SQLStatement) (v : value) :
  well_formed st ->
  text (stmt_append st (SQL1 "" v ""))
  = text st ++ "$" ++ show_nat (S (List.length (values st))).
Proof.
  unfold well_formed, text, stmt_append. simpl. rewrite add_to_last_nil.
  destruct (strings st) as [|s0 rest]; intros H; [discriminate|].
  simpl. rewrite reduce_text_snoc. simpl in H. injection H as H.
  rewrite string_app_nil_r. now rewrite H.
Qed.

Lemma well_formed_add_fragment (st : SQLStatement) (f : Fragment) :
  well_formed st -> well_formed (add_fragment st f).
Proof.
  unfold well_formed. intros H. destruct f; simpl.
  - now rewrite add_to_last_length.
  - now rewrite add_to_last_length.
  - rewrite !length_app, add_to_last_length. simpl. lia.
Qed.

Lemma add_fragments_text_values (fs : list Fragment) (st : SQLStatement) :
  well_formed st ->
  text (add_fragments st fs) = text st ++ render (List.length (values st)) fs
  /\ values (add_fragments st fs) = (values st ++ bound_values fs)%list.
Proof.
  revert st. induction fs as [|f fs IH]; intros st Hwf.
  - simpl. now rewrite string_app_nil_r, app_nil_r.
  - pose proof (well_formed_nonempty _ Hwf) as Hne.
    change (add_fragments st (f :: fs))
      with (add_fragments (add_fragment st f) fs).
    destruct (IH _ (well_formed_add_fragment st f Hwf)) as [Ht Hv].
    rewrite Ht, Hv. destruct f; simpl.
    + rewrite text_append_text by assumption.
      now rewrite string_app_assoc.
    + rewrite text_append_text by assumption.
      now rewrite string_app_assoc.
    + rewrite text_append_bound by assumption.
      rewrite length_app. simpl. rewrite Nat.add_1_r.
      rewrite !string_app_assoc. split; [reflexivity|].
      now rewrite <- app_assoc.
Qed.

(** The text of an assembled statement shows its keywords, its quoted
    identifiers and the positions of its parameters, and nothing of the
    values. *)
Lemma text_assemble (fs : list Fragment) : text (assemble fs) = render 0 fs.
Proof.
  unfold assemble.
  destruct (add_fragments_text_values fs (SQL0 "")) as [H _]; [reflexivity|].
  exact H.
Qed.

Lemma values_assemble (fs : list Fragment) :
  values (assemble fs) = bound_values fs.
Proof.
  unfold assemble.
  destruct (add_fragments_text_values fs (SQL0 "")) as [_ H]; [reflexivity|].
  exact H.
Qed.

Lemma bound_values_app (a b : list Fragment) :
  bound_values (a ++ b) = (bound_values a ++ bound_values b)%list.
Proof.
  induction a as [|[s|n|v] a IH]; simpl; [reflexivity | exact IH | exact IH |].
  now rewrite IH.
Qed.

Lemma keywords_app (a b : list Fragment) :
  keywords (a ++ b) = (keywords a ++ keywords b)%list.
Proof.
  induction a as [|[s|n|v] a IH]; simpl; [reflexivity | | exact IH | exact IH].
  now rewrite IH.
Qed.

Lemma identifiers_app (a b : list Fragment) :
  identifiers (a ++ b) = (identifiers a ++ identifiers b)%list.
Proof.
  induction a as [|[s|n|v] a IH]; simpl; [reflexivity | exact IH | | exact IH].
  now rewrite IH.
Qed.

End Rendering.

(** ** The builders, fragment by fragment *)

Section BuilderFragments.

Context {num : Type} {NUM : JSNumber num}.

#[local] Abbreviation value := (value num).
#[local] Abbreviation JSObject := (JSObject num).
#[local] Abbreviation SQLStatement := (SQLStatement num).
#[local] Abbreviation Fragment := (Fragment num).

Lemma stmt_append_text_twice (st : SQLStatement) (s t : string) :
  stmt_append_text (stmt_append_text st s) t = stmt_append_text st (s ++ t).
Proof. unfold stmt_append_text. simpl. now rewrite add_to_last_twice. Qed.

Lemma stmt_append_text_nil (st : SQLStatement) : stmt_append_text st "" = st.
Proof. unfold stmt_append_text. rewrite add_to_last_nil. now destruct st. Qed.

Lemma scope_step_first (st : SQLStatement) (e : string * value) :
  scope_step (st, true) e = (add_fragments st (scope_clause e), false).
Proof.
  destruct e as [k v]. unfold scope_step. cbn [negb].
  now rewrite stmt_append_SQL1_fragments.
Qed.

Lemma scope_step_next (st : SQLStatement) (e : string * value) :
  scope_step (st, false) e = (add_fragments st (and_clause e), false).
Proof.
  destruct e as [k v]. unfold scope_step. cbn [negb].
  now rewrite stmt_append_SQL1_fragments, stmt_append_SQL0.
Qed.

Lemma scope_loop_rest (rest : list (string * value)) (st : SQLStatement) :
  fold_left scope_step rest (st, false)
  = (add_fragments st (flat_map and_clause rest), false).
Proof.
  revert st. induction rest as [|e rest IH]; intros st; [reflexivity|].
  cbn [fold_left flat_map]. rewrite scope_step_next, IH.
  now rewrite add_fragments_app.
Qed.

Lemma scope_fragments_cons (e : string * value) (rest : list (string * value)) :
  scope_fragments (e :: rest)
  = (scope_clause e ++ flat_map and_clause rest)%list.
Proof.
  revert e. induction rest as [|e' rest IH]; intros e.
  - simpl. reflexivity.
  - change (scope_fragments (e :: e' :: rest))
      with (scope_clause e ++ Keyword " AND " :: scope_fragments (e' :: rest))%list.
    rewrite IH. reflexivity.
Qed.

Lemma createScopeFilter_fragments (scope : JSObject) :
  createScopeFilter scope = assemble (scope_fragments scope).
Proof.
  unfold createScopeFilter, Object_entries.
  destruct scope as [|e rest]; [reflexivity|].
  cbn [List.length Nat.eqb fold_left].
  rewrite scope_step_first, scope_loop_rest, scope_fragments_cons.
  unfold assemble. now rewrite add_fragments_app.
Qed.

Lemma insert_loop (o : JSObject) (mf : option (string -> string))
  (keys : list string) (cols : list string) (vals : list value) :
  fold_left (insert_step o mf) keys (cols, vals)
  = ((cols ++ map (fun k => createIdentifier (column_of mf k)) keys)%list,
     (vals ++ map (get_prop o) keys)%list).
Proof.
  revert cols vals. induction keys as [|k keys IH]; intros cols vals.
  - simpl. now rewrite !app_nil_r.
  - cbn [fold_left map]. unfold insert_step at 2. rewrite IH.
    now rewrite <- !app_assoc.
Qed.

Lemma joined_columns (names : list string) (st : SQLStatement) :
  stmt_append_text st (join_strings ", " (map createIdentifier names))
  = add_fragments st (separated (Keyword ", ") (map Identifier names)).
Proof.
  revert st. induction names as [|x names IH]; intros st.
  - simpl. apply stmt_append_text_nil.
  - destruct names as [|y names]; [reflexivity|].
    change (join_strings ", " (map createIdentifier (x :: y :: names)))
      with (createIdentifier x ++ ", "
            ++ join_strings ", " (map createIdentifier (y :: names))).
    rewrite <- !stmt_append_text_twice. rewrite IH. reflexivity.
Qed.

Lemma insert_values_fragments (rest : list value) (st : SQLStatement)
  (i n : nat) :
  i + List.length rest = n ->
  insert_values st i n rest
  = add_fragments st
      (separated (Keyword ", ") (map (fun v => Bound (bound_form v)) rest)).
Proof.
  revert st i. induction rest as [|v rest IH]; intros st i Hn; [reflexivity|].
  cbn [insert_values]. destruct rest as [|w rest].
  - simpl in Hn. replace (Nat.ltb i (n - 1)) with false
      by (symmetry; apply Nat.ltb_ge; lia).
    reflexivity.
  - simpl in Hn. replace (Nat.ltb i (n - 1)) with true
      by (symmetry; apply Nat.ltb_lt; lia).
    rewrite IH by (simpl; lia).
    rewrite stmt_append_SQL0. reflexivity.
Qed.

(** *** Own keys of a merged object *)

Lemma has_own_In (o : JSObject) (k : string) :
  has_own o k = true <-> In k (Object_keys o).
Proof.
  induction o as [|[k' v] o IH]; simpl; [split; [discriminate | tauto]|].
  destruct (String.eqb_spec k' k) as [E|N].
  - split; [now left | reflexivity].
  - rewrite IH. split; [now right | intros [E|H]; [contradiction | exact H]].
Qed.

Lemma has_own_false (o : JSObject) (k : string) :
  has_own o k = false <-> ~ In k (Object_keys o).
Proof.
  rewrite <- has_own_In. destruct (has_own o k); split; intro H;
    try reflexivity; try discriminate; try (intro; discriminate).
  now destruct H.
Qed.

Lemma keys_replace_value (o : JSObject) (k : string) (v : value) :
  Object_keys (replace_value o k v) = Object_keys o.
Proof.
  induction o as [|[k' w] o IH]; simpl; [reflexivity|].
  destruct (String.eqb k' k); simpl; [reflexivity | now rewrite IH].
Qed.

Lemma In_define_index (o : JSObject) (i : N) (k : string) (v : value)
  (k' : string) :
  In k' (Object_keys (define_index o i k v)) <-> k' = k \/ In k' (Object_keys o).
Proof.
  induction o as [|[k0 w] o IH]; simpl.
  - split; [intros [E|[]]; now left | intros [E|[]]; now left].
  - destruct (array_index k0) as [j|]; [destruct (N.ltb j i)|]; simpl;
      try rewrite IH; intuition congruence.
Qed.

Lemma NoDup_define_index (o : JSObject) (i : N) (k : string) (v : value) :
  ~ In k (Object_keys o) -> NoDup (Object_keys o) ->
  NoDup (Object_keys (define_index o i k v)).
Proof.
  induction o as [|[k0 w] o IH]; simpl; intros Hk Hn.
  - constructor; [intros [] | constructor].
  - inversion Hn as [|? ? Hk0 Hn']; subst.
    assert (Hnew : NoDup (k :: k0 :: Object_keys o))
      by (constructor; [simpl; tauto | exact Hn]).
    destruct (array_index k0) as [j|]; [destruct (N.ltb j i)|]; simpl;
      try exact Hnew.
    constructor.
    + rewrite In_define_index. intuition congruence.
    + apply IH; tauto.
Qed.

Lemma NoDup_CreateDataProperty (o : JSObject) (k : string) (v : value) :
  NoDup (Object_keys o) -> NoDup (Object_keys (CreateDataProperty o k v)).
Proof.
  intros Hn. unfold CreateDataProperty.
  destruct (has_own o k) eqn:E.
  - now rewrite keys_replace_value.
  - apply has_own_false in E. destruct (array_index k).
    + now apply NoDup_define_index.
    + unfold Object_keys. rewrite map_app. simpl.
      apply NoDup_app; [exact Hn | constructor; [intros [] | constructor] |].
      intros x Hx [E'|[]]. subst. contradiction.
Qed.

Lemma NoDup_spread (source target : JSObject) :
  NoDup (Object_keys target) -> NoDup (Object_keys (spread target source)).
Proof.
  unfold spread, Object_entries. revert target.
  induction source as [|[k v] source IH]; intros target Hn; [exact Hn|].
  simpl. apply IH. now apply NoDup_CreateDataProperty.
Qed.

Lemma get_prop_In (o : JSObject) (k : string) (v : value) :
  NoDup (Object_keys o) -> In (k, v) o -> get_prop o k = v.
Proof.
  induction o as [|[k' w] o IH]; simpl; intros Hn Hin; [contradiction|].
  inversion Hn as [|? ? Hk Hn']; subst.
  destruct Hin as [E|Hin].
  - injection E as -> ->. now rewrite String.eqb_refl.
  - destruct (String.eqb_spec k' k) as [->|N].
    + exfalso. apply Hk. change k with (fst (k, v)). now apply in_map.
    + now apply IH.
Qed.

Lemma get_own_values (o : JSObject) :
  NoDup (Object_keys o) -> map (get_prop o) (Object_keys o) = map snd o.
Proof.
  intros Hn. unfold Object_keys. rewrite map_map.
  apply map_ext_in. intros [k v] Hin. simpl. now apply get_prop_In.
Qed.

End BuilderFragments.

(** ** Every statement of the store as fragments *)

Section StoreFragments.

Context {num : Type} {NUM : JSNumber num} {JSON : JSONRuntime num}
  {W : Type}.

#[local] Abbreviation value := (value num).
#[local] Abbreviation JSObject := (JSObject num).
#[local] Abbreviation SQLStatement := (SQLStatement num).
#[local] Abbreviation Fragment := (Fragment num).
#[local] Abbreviation PostgresVectorStore := (PostgresVectorStore num W).

Lemma stmt_append_SQL2_fragments (st : SQLStatement) (s t : string)
  (v w : value) :
  stmt_append st (SQL2 s v t w "")
  = add_fragments st [Keyword s; Bound v; Keyword t; Bound w].
Proof.
  rewrite stmt_append_SQL2. rewrite (stmt_append_SQL1 st s t v). reflexivity.
Qed.

Lemma createInsertQuery_fragments (table : string) (object scope : JSObject)
  (mapFunction : option (string -> string)) :
  createInsertQuery table object scope mapFunction
  = assemble (insert_fragments table (spread (spread [] scope) object)
                               mapFunction).
Proof.
  unfold createInsertQuery.
  set (merged := spread (spread [] scope) object).
  assert (Hn : NoDup (Object_keys merged))
    by (unfold merged; apply NoDup_spread, NoDup_spread; constructor).
  rewrite insert_loop. cbn [app].
  rewrite (get_own_values merged Hn).
  rewrite !stmt_append_SQL0.
  replace (map (fun k => createIdentifier (column_of mapFunction k))
               (Object_keys merged))
    with (map createIdentifier (map (column_of mapFunction) (Object_keys merged)))
    by (now rewrite map_map).
  rewrite joined_columns.
  rewrite insert_values_fragments by reflexivity.
  unfold insert_fragments, assemble. rewrite !add_fragments_app.
  unfold Object_keys. rewrite !map_map. reflexivity.
Qed.

Lemma render_scope_nonempty (e : string * value) (rest : list (string * value))
  (n : nat) :
  0 < String.length (render n (scope_fragments (e :: rest))).
Proof.
  rewrite scope_fragments_cons. simpl. lia.
Qed.

Lemma has_text_createScopeFilter (scope : JSObject) :
  has_text (createScopeFilter scope)
  = match scope with [] => false | _ => true end.
Proof.
  unfold has_text. rewrite createScopeFilter_fragments, text_assemble.
  destruct scope as [|e rest]; [reflexivity|].
  apply Nat.ltb_lt. apply render_scope_nonempty.
Qed.

Lemma by_id_statement (verb table : string) (reference : value)
  (scope : JSObject) :
  (let stmt :=
     stmt_append (stmt_append_text (SQL0 verb) (createIdentifier table))
                 (SQL1 where_id reference "") in
   let scopeFilter := createScopeFilter scope in
   if has_text scopeFilter
   then stmt_append (stmt_append stmt (SQL0 " AND ")) scopeFilter
   else stmt)
  = assemble (by_id_fragments verb table reference scope).
Proof.
  cbv zeta. rewrite has_text_createScopeFilter.
  rewrite stmt_append_SQL1_fragments.
  unfold by_id_fragments, assemble.
  destruct scope as [|e rest].
  - reflexivity.
  - rewrite createScopeFilter_fragments, stmt_append_assemble.
    rewrite stmt_append_SQL0.
    change (Keyword " AND " :: scope_fragments (e :: rest))
      with ([Keyword " AND "] ++ scope_fragments (e :: rest))%list.
    rewrite !add_fragments_app. reflexivity.
Qed.

Lemma lookup_statement_fragments (this : PostgresVectorStore)
  (reference : value) :
  lookup_statement this reference
  = assemble (by_id_fragments "SELECT * FROM " (documentTable this) reference
                              (documentScope this)).
Proof. apply by_id_statement. Qed.

Lemma delete_statement_fragments (this : PostgresVectorStore)
  (document : value) :
  delete_statement this document
  = assemble (by_id_fragments "DELETE FROM " (documentTable this) document
                              (documentScope this)).
Proof. apply by_id_statement. Qed.

Lemma documents_statement_fragments (this : PostgresVectorStore) :
  documents_statement this
  = assemble (documents_fragments (documentTable this) (documentScope this)).
Proof.
  unfold documents_statement. rewrite has_text_createScopeFilter.
  unfold documents_fragments, assemble.
  destruct (documentScope this) as [|e rest]; [reflexivity|].
  rewrite createScopeFilter_fragments, stmt_append_assemble, stmt_append_SQL0.
  change (Keyword " WHERE " :: scope_fragments (e :: rest))
    with ([Keyword " WHERE "] ++ scope_fragments (e :: rest))%list.
  rewrite !add_fragments_app. reflexivity.
Qed.

Lemma query_statement_fragments (this : PostgresVectorStore)
  (operator : string) (vector : list num) (documents : option (list value))
  (limit offset : num) :
  query_statement this operator vector documents limit offset
  = assemble
      (query_fragments operator
         (mapEmbeddingColumn this "vector") (mapEmbeddingColumn this "text")
         (mapEmbeddingColumn this "document") (embeddingTable this)
         (embeddingScope this) vector documents limit offset).
Proof.
  unfold query_statement. rewrite has_text_createScopeFilter.
  rewrite createScopeFilter_fragments.
  set (vectorCol := mapEmbeddingColumn this "vector").
  set (textCol := mapEmbeddingColumn this "text").
  set (docCol := mapEmbeddingColumn this "document").
  set (distance :=
         stmt_append
           (stmt_append
              (stmt_append_text
                 (stmt_append_text (SQL0 "") (createIdentifier vectorCol))
                 (" " ++ operator ++ " "))
              (SQL1 "" (VStr (vector_literal vector)) ""))
           (SQL0 " AS distance ")).
  assert (Hd : distance
               = assemble [Identifier vectorCol;
                           Keyword (" " ++ operator ++ " ");
                           Bound (VStr (vector_literal vector));
                           Keyword " AS distance "])
    by (unfold distance; rewrite stmt_append_SQL0; reflexivity).
  rewrite Hd. clear Hd distance.
  assert (Ha : forall keys : list value,
             stmt_append (stmt_append_text (SQL0 "") (createIdentifier docCol))
                         (SQL1 " = ANY(" (VArr keys) ")")
             = assemble [Identifier docCol; Keyword " = ANY(";
                         Bound (VArr keys); Keyword ")"])
    by (intros keys; rewrite stmt_append_SQL1; reflexivity).
  rewrite stmt_append_SQL2_fragments.
  rewrite !stmt_append_SQL0, stmt_append_assemble.
  destruct (embeddingScope this) as [|e rest]; destruct documents as [keys|];
    cbn [app List.length Nat.ltb Nat.leb fold_left filter_step fst];
    rewrite ?Ha, ?stmt_append_SQL0, ?stmt_append_assemble;
    unfold query_fragments, assemble; cbn [where_fragments];
    rewrite ?add_fragments_app; try reflexivity.
  change (Keyword " WHERE " :: scope_fragments (e :: rest) ++
            [Keyword " AND "; Identifier docCol; Keyword " = ANY(";
             Bound (VArr keys); Keyword ")"])%list
      with ([Keyword " WHERE "] ++ scope_fragments (e :: rest) ++
            [Keyword " AND "] ++
            [Identifier docCol; Keyword " = ANY(";
             Bound (VArr keys); Keyword ")"])%list.
  rewrite !add_fragments_app. reflexivity.
Qed.

End StoreFragments.

(** ** Names are quoted, values are bound *)

Section Injection.

Context {num : Type} {NUM : JSNumber num} {JSON : JSONRuntime num}
  {W : Type}.

#[local] Abbreviation value := (value num).
#[local] Abbreviation JSObject := (JSObject num).
#[local] Abbreviation SQLStatement := (SQLStatement num).
#[local] Abbreviation Fragment := (Fragment num).
#[local] Abbreviation PostgresVectorStore := (PostgresVectorStore num W).

Lemma built_from_assemble (fs : list Fragment) (extra names : list string)
  (data : list value) (st : SQLStatement) :
  st = assemble fs ->
  Forall (fun sql => In sql (extra ++ sql_vocabulary)%list) (keywords fs) ->
  identifiers fs = names ->
  bound_values fs = data ->
  built_from fs extra names data st.
Proof.
  intros -> Hk Hi Hb. unfold built_from.
  rewrite text_assemble, values_assemble. auto.
Qed.

Ltac in_vocabulary :=
  try (apply in_or_app; right); unfold sql_vocabulary; simpl; tauto.

Ltac known_keywords :=
  repeat (first [apply Forall_nil | apply Forall_cons; [in_vocabulary|]]).

Lemma scope_keywords (scope : JSObject) (extra : list string) :
  Forall (fun sql => In sql (extra ++ sql_vocabulary)%list)
         (keywords (scope_fragments scope)).
Proof.
  destruct scope as [|e rest]; [constructor|].
  rewrite scope_fragments_cons, keywords_app. apply Forall_app. split.
  - simpl. known_keywords.
  - induction rest as [|e' rest IH]; [constructor|].
    simpl. apply Forall_cons; [in_vocabulary|].
    apply Forall_cons; [in_vocabulary | exact IH].
Qed.

Lemma scope_identifiers (scope : JSObject) :
  identifiers (scope_fragments scope) = Object_keys scope.
Proof.
  destruct scope as [|e rest]; [reflexivity|].
  rewrite scope_fragments_cons, identifiers_app. simpl. f_equal.
  induction rest as [|e' rest IH]; [reflexivity|]. simpl. now rewrite IH.
Qed.

Lemma scope_bound_values (scope : JSObject) :
  bound_values (scope_fragments scope) = scope_values scope.
Proof.
  destruct scope as [|e rest]; [reflexivity|].
  rewrite scope_fragments_cons, bound_values_app. simpl. f_equal.
  induction rest as [|e' rest IH]; [reflexivity|]. simpl. now rewrite IH.
Qed.

Lemma separated_identifiers (names : list string) :
  keywords (separated (Keyword ", ") (map (@Identifier num) names))
    = repeat ", " (pred (List.length names))
  /\ identifiers (separated (Keyword ", ") (map (@Identifier num) names)) = names
  /\ bound_values (separated (Keyword ", ") (map (@Identifier num) names)) = [].
Proof.
  induction names as [|x names IH]; [simpl; auto|].
  destruct names as [|y names]; [simpl; auto|].
  destruct IH as (Hk & Hi & Hb).
  change (separated (Keyword ", ") (map (@Identifier num) (x :: y :: names)))
    with (@Identifier num x :: Keyword ", "
          :: separated (Keyword ", ") (map (@Identifier num) (y :: names))).
  cbn [keywords identifiers bound_values]. rewrite Hk, Hi, Hb. auto.
Qed.

Lemma separated_bound (vs : list value) :
  keywords (separated (Keyword ", ") (map (@Bound num) vs))
    = repeat ", " (pred (List.length vs))
  /\ identifiers (separated (Keyword ", ") (map (@Bound num) vs)) = []
  /\ bound_values (separated (Keyword ", ") (map (@Bound num) vs)) = vs.
Proof.
  induction vs as [|x vs IH]; [simpl; auto|].
  destruct vs as [|y vs]; [simpl; auto|].
  destruct IH as (Hk & Hi & Hb).
  change (separated (Keyword ", ") (map (@Bound num) (x :: y :: vs)))
    with (@Bound num x :: Keyword ", "
          :: separated (Keyword ", ") (map (@Bound num) (y :: vs))).
  cbn [keywords identifiers bound_values]. rewrite Hk, Hi, Hb. auto.
Qed.

Lemma repeat_in_vocabulary (extra : list string) (n : nat) :
  Forall (fun sql => In sql (extra ++ sql_vocabulary)%list) (repeat ", " n).
Proof.
  induction n as [|n IH]; simpl; [constructor|].
  apply Forall_cons; [in_vocabulary | exact IH].
Qed.

Lemma built_from_scope (scope : JSObject) :
  built_from (scope_fragments scope) [] (Object_keys scope)
             (scope_values scope) (createScopeFilter scope).
Proof.
  apply built_from_assemble.
  - apply createScopeFilter_fragments.
  - apply scope_keywords.
  - apply scope_identifiers.
  - apply scope_bound_values.
Qed.

Lemma built_from_insert (table : string) (object scope : JSObject)
  (mapFunction : option (string -> string)) :
  let merged := spread (spread [] scope) object in
  built_from (insert_fragments table merged mapFunction) []
    (table :: map (fun e => column_of mapFunction (fst e)) merged)
    (map (fun e => bound_form (snd e)) merged)
    (createInsertQuery table object scope mapFunction).
Proof.
  intros merged.
  pose proof (separated_identifiers
                (map (fun e => column_of mapFunction (fst e)) merged))
    as (Hk1 & Hi1 & Hb1).
  pose proof (separated_bound (map (fun e => bound_form (snd e)) merged))
    as (Hk2 & Hi2 & Hb2).
  rewrite map_map in Hk1, Hi1, Hb1. rewrite map_map in Hk2, Hi2, Hb2.
  apply built_from_assemble.
  - apply createInsertQuery_fragments.
  - unfold insert_fragments. fold merged.
    rewrite !keywords_app, Hk1, Hk2. simpl.
    apply Forall_cons; [in_vocabulary|]. apply Forall_cons; [in_vocabulary|].
    apply Forall_app; split; [apply (repeat_in_vocabulary [])|].
    apply Forall_cons; [in_vocabulary|].
    apply Forall_app; split; [apply (repeat_in_vocabulary [])|].
    known_keywords.
  - unfold insert_fragments. fold merged.
    rewrite !identifiers_app, Hi1, Hi2. simpl. now rewrite app_nil_r.
  - unfold insert_fragments. fold merged.
    rewrite !bound_values_app, Hb1, Hb2. simpl. now rewrite app_nil_r.
Qed.

Lemma built_from_by_id (verb table : string) (reference : value)
  (scope : JSObject) :
  In verb sql_vocabulary ->
  built_from (by_id_fragments verb table reference scope) []
    (table :: Object_keys scope) (reference :: scope_values scope)
    (assemble (by_id_fragments verb table reference scope)).
Proof.
  intros Hverb.
  pose proof (scope_keywords scope []) as Hk.
  pose proof (scope_identifiers scope) as Hi.
  pose proof (scope_bound_values scope) as Hb.
  apply built_from_assemble; [reflexivity | | |]; unfold by_id_fragments;
    destruct scope as [|e rest]; cbn [app].
  - simpl. apply Forall_cons; [exact Hverb | known_keywords].
  - cbn [keywords]. apply Forall_cons; [exact Hverb|].
    apply Forall_cons; [in_vocabulary|].
    apply Forall_cons; [in_vocabulary | exact Hk].
  - reflexivity.
  - cbn [identifiers]. now rewrite Hi.
  - reflexivity.
  - cbn [bound_values]. now rewrite Hb.
Qed.

Lemma built_from_documents (table : string) (scope : JSObject) :
  built_from (documents_fragments table scope) []
    (table :: Object_keys scope) (scope_values scope)
    (assemble (documents_fragments table scope)).
Proof.
  pose proof (scope_keywords scope []) as Hk.
  pose proof (scope_identifiers scope) as Hi.
  pose proof (scope_bound_values scope) as Hb.
  apply built_from_assemble; [reflexivity | | |]; unfold documents_fragments;
    destruct scope as [|e rest]; cbn [app].
  - simpl. known_keywords.
  - cbn [keywords]. apply Forall_cons; [in_vocabulary|].
    apply Forall_cons; [in_vocabulary | exact Hk].
  - reflexivity.
  - cbn [identifiers]. now rewrite Hi.
  - reflexivity.
  - cbn [bound_values]. now rewrite Hb.
Qed.

Lemma where_fragments_parts (scope : JSObject) (docCol : string)
  (documents : option (list value)) (extra : list string) :
  Forall (fun sql => In sql (extra ++ sql_vocabulary)%list)
         (keywords (where_fragments scope docCol documents))
  /\ identifiers (where_fragments scope docCol documents)
     = filter_names scope docCol documents
  /\ bound_values (where_fragments scope docCol documents)
     = filter_values scope documents.
Proof.
  pose proof (scope_keywords scope extra) as Hk.
  pose proof (scope_identifiers scope) as Hi.
  pose proof (scope_bound_values scope) as Hb.
  unfold where_fragments, filter_names, filter_values.
  destruct scope as [|e rest]; destruct documents as [keys|].
  - simpl. repeat split. known_keywords.
  - simpl. repeat split. constructor.
  - cbn [keywords identifiers bound_values].
    rewrite keywords_app, identifiers_app, bound_values_app, Hi, Hb.
    repeat split.
    apply Forall_cons; [in_vocabulary|]. apply Forall_app; split; [exact Hk|].
    simpl. known_keywords.
  - cbn [keywords identifiers bound_values]. rewrite Hi, Hb, !app_nil_r.
    repeat split. apply Forall_cons; [in_vocabulary | exact Hk].
Qed.

Lemma built_from_query (operator vectorCol textCol docCol table : string)
  (scope : JSObject) (vector : list num) (documents : option (list value))
  (limit offset : num) :
  built_from
    (query_fragments operator vectorCol textCol docCol table scope vector
                     documents limit offset)
    [" " ++ operator ++ " "]
    ([docCol; textCol; vectorCol; vectorCol; table]
     ++ filter_names scope docCol documents)
    ([VStr (vector_literal vector)] ++ filter_values scope documents
     ++ [VNum limit; VNum offset])
    (assemble (query_fragments operator vectorCol textCol docCol table scope
                               vector documents limit offset)).
Proof.
  destruct (where_fragments_parts scope docCol documents
              [" " ++ operator ++ " "]) as (Hk & Hi & Hb).
  apply built_from_assemble; [reflexivity | | |]; unfold query_fragments.
  - rewrite !keywords_app. apply Forall_app; split; [|apply Forall_app; split].
    + cbn [keywords].
      repeat (apply Forall_cons;
              [first [in_vocabulary | apply in_or_app; left; now left]|]).
      constructor.
    + exact Hk.
    + cbn [keywords]. known_keywords.
  - rewrite !identifiers_app, Hi. simpl. now rewrite app_nil_r.
  - rewrite !bound_values_app, Hb. reflexivity.
Qed.

End Injection.

(** ** Merging a scope and a record *)

Section Merging.

Context {num : Type} {NUM : JSNumber num}.

#[local] Abbreviation value := (value num).
#[local] Abbreviation JSObject := (JSObject num).

Lemma has_own_keys (o o' : JSObject) (k : string) :
  (forall x, In x (Object_keys o) <-> In x (Object_keys o')) ->
  has_own o k = has_own o' k.
Proof.
  intros H. destruct (has_own o k) eqn:E, (has_own o' k) eqn:E'; try reflexivity.
  - apply has_own_In, H, has_own_In in E. congruence.
  - apply has_own_In, H, has_own_In in E'. congruence.
Qed.

Lemma get_prop_absent (o : JSObject) (k : string) :
  has_own o k = false -> get_prop o k = VUndefined.
Proof.
  induction o as [|[k' v] o IH]; simpl; [reflexivity|].
  destruct (String.eqb k' k); [discriminate | exact IH].
Qed.

Lemma get_prop_replace_value (o : JSObject) (k : string) (v : value)
  (k' : string) :
  has_own o k = true ->
  get_prop (replace_value o k v) k'
  = if String.eqb k k' then v else get_prop o k'.
Proof.
  induction o as [|[k0 w] o IH]; simpl; [discriminate|].
  destruct (String.eqb_spec k0 k) as [->|N]; intros H; simpl.
  - destruct (String.eqb k k'); reflexivity.
  - rewrite IH by exact H.
    destruct (String.eqb_spec k0 k') as [->|N'].
    + destruct (String.eqb_spec k k') as [->|]; [contradiction | reflexivity].
    + reflexivity.
Qed.

Lemma get_prop_define_index (o : JSObject) (i : N) (k : string) (v : value)
  (k' : string) :
  has_own o k = false ->
  get_prop (define_index o i k v) k'
  = if String.eqb k k' then v else get_prop o k'.
Proof.
  induction o as [|[k0 w] o IH]; simpl; [reflexivity|].
  destruct (String.eqb_spec k0 k) as [->|N]; [discriminate|]. intros H.
  assert (Hhere : get_prop ((k, v) :: (k0, w) :: o) k'
                  = if String.eqb k k' then v
                    else if String.eqb k0 k' then w else get_prop o k')
    by reflexivity.
  destruct (array_index k0) as [j|]; [destruct (N.ltb j i)|]; try exact Hhere.
  simpl. rewrite IH by exact H.
  destruct (String.eqb_spec k0 k') as [->|N'].
  - destruct (String.eqb_spec k k') as [->|]; [contradiction | reflexivity].
  - reflexivity.
Qed.

Lemma get_prop_snoc (o : JSObject) (k : string) (v : value) (k' : string) :
  has_own o k = false ->
  get_prop (o ++ [(k, v)])%list k' = if String.eqb k k' then v else get_prop o k'.
Proof.
  induction o as [|[k0 w] o IH]; simpl; [reflexivity|].
  destruct (String.eqb_spec k0 k) as [->|N]; [discriminate|]. intros H.
  rewrite IH by exact H.
  destruct (String.eqb_spec k0 k') as [->|N'].
  - destruct (String.eqb_spec k k') as [->|]; [contradiction | reflexivity].
  - reflexivity.
Qed.

Lemma get_prop_CreateDataProperty (o : JSObject) (k : string) (v : value)
  (k' : string) :
  get_prop (CreateDataProperty o k v) k'
  = if String.eqb k k' then v else get_prop o k'.
Proof.
  unfold CreateDataProperty. destruct (has_own o k) eqn:E.
  - now apply get_prop_replace_value.
  - destruct (array_index k).
    + now apply get_prop_define_index.
    + now apply get_prop_snoc.
Qed.

Lemma In_CreateDataProperty (o : JSObject) (k : string) (v : value)
  (k' : string) :
  In k' (Object_keys (CreateDataProperty o k v))
  <-> k' = k \/ In k' (Object_keys o).
Proof.
  unfold CreateDataProperty. destruct (has_own o k) eqn:E.
  - rewrite keys_replace_value. apply has_own_In in E.
    intuition congruence.
  - destruct (array_index k).
    + apply In_define_index.
    + unfold Object_keys. rewrite map_app, in_app_iff. simpl.
      intuition congruence.
Qed.

Lemma In_spread (source target : JSObject) (k : string) :
  In k (Object_keys (spread target source))
  <-> In k (Object_keys target) \/ In k (Object_keys source).
Proof.
  unfold spread, Object_entries. revert target.
  induction source as [|[k0 v0] source IH]; intros target; simpl.
  - tauto.
  - rewrite IH, In_CreateDataProperty. intuition congruence.
Qed.

Lemma get_prop_spread (source target : JSObject) (k : string) :
  NoDup (Object_keys source) ->
  get_prop (spread target source) k
  = if has_own source k then get_prop source k else get_prop target k.
Proof.
  unfold spread, Object_entries. revert target.
  induction source as [|[k0 v0] source IH]; intros target Hn; [reflexivity|].
  inversion Hn as [|? ? Hk Hn']; subst. simpl.
  rewrite IH by exact Hn'. rewrite get_prop_CreateDataProperty.
  destruct (String.eqb_spec k0 k) as [->|N]; [|reflexivity].
  apply has_own_false in Hk. now rewrite Hk.
Qed.

(** Without array-index keys a new key goes last. *)
Lemma keys_CreateDataProperty_plain (o : JSObject) (k : string) (v : value) :
  array_index k = None ->
  Object_keys (CreateDataProperty o k v)
  = if has_own o k then Object_keys o else (Object_keys o ++ [k])%list.
Proof.
  intros Hk. unfold CreateDataProperty. destruct (has_own o k).
  - apply keys_replace_value.
  - rewrite Hk. unfold Object_keys. now rewrite map_app.
Qed.

Lemma keys_spread_plain (source target : JSObject) :
  Forall (fun k => array_index k = None) (Object_keys source) ->
  NoDup (Object_keys source) ->
  Object_keys (spread target source)
  = (Object_keys target
     ++ filter (fun k => negb (has_own target k)) (Object_keys source))%list.
Proof.
  unfold spread, Object_entries. revert target.
  induction source as [|[k0 v0] source IH]; intros target Hp Hn.
  - simpl. now rewrite app_nil_r.
  - inversion Hp as [|? ? Hp0 Hp']; subst.
    inversion Hn as [|? ? Hk Hn']; subst.
    cbn [fold_left fst snd]. rewrite IH by assumption.
    rewrite keys_CreateDataProperty_plain by exact Hp0.
    cbn [Object_keys map fst filter].
    assert (Hsame : filter (fun k => negb (has_own (CreateDataProperty target k0 v0) k))
                           (Object_keys source)
                    = filter (fun k => negb (has_own target k))
                             (Object_keys source)).
    { apply filter_ext_in. intros k Hin. f_equal.
      destruct (has_own (CreateDataProperty target k0 v0) k) eqn:E,
               (has_own target k) eqn:E'; try reflexivity.
      - apply has_own_In, In_CreateDataProperty in E.
        destruct E as [->|E]; [contradiction|].
        apply has_own_In in E. congruence.
      - apply has_own_In in E'.
        assert (E2 : In k (Object_keys (CreateDataProperty target k0 v0)))
          by (apply In_CreateDataProperty; now right).
        apply has_own_In in E2. congruence. }
    change (map fst source) with (Object_keys source). rewrite Hsame.
    destruct (has_own target k0); cbn [negb]; [reflexivity|].
    now rewrite <- app_assoc.
Qed.

Lemma spread_empty_keys (scope : JSObject) :
  Forall (fun k => array_index k = None) (Object_keys scope) ->
  NoDup (Object_keys scope) ->
  Object_keys (spread [] scope) = Object_keys scope.
Proof.
  intros Hp Hn. rewrite keys_spread_plain by assumption. simpl.
  apply forallb_filter_id. apply forallb_forall. reflexivity.
Qed.

End Merging.

(** ** The text of the scope filter and of the insert *)

Section Texts.

Context {num : Type} {NUM : JSNumber num} {JSON : JSONRuntime num}
  {W : Type}.

#[local] Abbreviation value := (value num).
#[local] Abbreviation JSObject := (JSObject num).
#[local] Abbreviation SQLStatement := (SQLStatement num).
#[local] Abbreviation Fragment := (Fragment num).
#[local] Abbreviation PostgresVectorStore := (PostgresVectorStore num W).

Lemma render_app (a b : list Fragment) (n : nat) :
  render n (a ++ b)
  = render n a ++ render (n + List.length (bound_values a)) b.
Proof.
  revert n. induction a as [|[s|name|v] a IH]; intros n;
    cbn [app render bound_values List.length];
    rewrite ?IH, ?Nat.add_0_r, ?Nat.add_succ_r; string_assoc; reflexivity.
Qed.

Lemma render_scope (scope : JSObject) (n : nat) :
  render n (scope_fragments scope)
  = join_strings " AND " (scope_clauses (S n) (Object_keys scope)).
Proof.
  revert n. induction scope as [|[k v] scope IH]; intros n; [reflexivity|].
  destruct scope as [|e' scope].
  - simpl. string_assoc. now rewrite string_app_nil_r.
  - change (scope_fragments ((k, v) :: e' :: scope))
      with (scope_clause (k, v)
            ++ Keyword " AND " :: scope_fragments (e' :: scope))%list.
    rewrite render_app. unfold scope_clause.
    cbn [bound_values List.length fst snd render]. rewrite IH. rewrite Nat.add_1_r.
    cbn [Object_keys map fst scope_clauses join_strings String.concat].
    string_assoc. reflexivity.
Qed.

Lemma render_separated_identifiers (names : list string) (n : nat) :
  render n (separated (Keyword ", ") (map (@Identifier num) names))
  = join_strings ", " (map createIdentifier names).
Proof.
  induction names as [|x names IH]; [reflexivity|].
  destruct names as [|y names].
  - simpl. now rewrite string_app_nil_r.
  - change (separated (Keyword ", ") (map (@Identifier num) (x :: y :: names)))
      with (@Identifier num x :: Keyword ", "
            :: separated (Keyword ", ") (map (@Identifier num) (y :: names))).
    cbn [render]. rewrite IH. reflexivity.
Qed.

Lemma render_separated_bound (vs : list value) (n : nat) :
  render n (separated (Keyword ", ") (map (@Bound num) vs))
  = join_strings ", " (placeholders (S n) (List.length vs)).
Proof.
  revert n. induction vs as [|x vs IH]; intros n; [reflexivity|].
  destruct vs as [|y vs].
  - simpl. now rewrite string_app_nil_r.
  - change (separated (Keyword ", ") (map (@Bound num) (x :: y :: vs)))
      with (@Bound num x :: Keyword ", "
            :: separated (Keyword ", ") (map (@Bound num) (y :: vs))).
    cbn [render]. rewrite IH. reflexivity.
Qed.

Lemma scope_clauses_length (keys : list string) (i : nat) :
  List.length (scope_clauses i keys) = List.length keys.
Proof.
  revert i. induction keys as [|k keys IH]; intros i; simpl;
    [reflexivity | now rewrite IH].
Qed.

Lemma text_createScopeFilter (scope : JSObject) :
  text (createScopeFilter scope)
  = join_strings " AND " (scope_clauses 1 (Object_keys scope)).
Proof.
  rewrite createScopeFilter_fragments, text_assemble. apply render_scope.
Qed.

Lemma text_createInsertQuery (table : string) (object scope : JSObject)
  (mapFunction : option (string -> string)) :
  let merged := spread (spread [] scope) object in
  text (createInsertQuery table object scope mapFunction)
  = "INSERT INTO " ++ createIdentifier table ++ " ("
    ++ join_strings ", "
         (map (fun e => createIdentifier (column_of mapFunction (fst e))) merged)
    ++ ") VALUES ("
    ++ join_strings ", " (placeholders 1 (List.length merged))
    ++ returning_id.
Proof.
  intros merged.
  rewrite createInsertQuery_fragments, text_assemble. fold merged.
  unfold insert_fragments.
  pose proof (separated_identifiers (num := num)
                (map (fun e => column_of mapFunction (fst e)) merged))
    as (_ & _ & Hb1).
  pose proof (render_separated_identifiers
                (map (fun e => column_of mapFunction (fst e)) merged)) as Hr1.
  pose proof (render_separated_bound
                (map (fun e => bound_form (snd e)) merged)) as Hr2.
  rewrite map_map in Hb1, Hr1. rewrite map_map in Hr2.
  rewrite length_map in Hr2.
  cbn [app render]. rewrite render_app, Hr1, Hb1.
  cbn [List.length app render]. rewrite render_app, Hr2.
  cbn [render]. rewrite map_map. string_assoc.
  now rewrite string_app_nil_r.
Qed.

End Texts.

(** ** The order of the keys of a merged object *)

Section KeyOrder.

Context {num : Type} {NUM : JSNumber num}.

#[local] Abbreviation value := (value num).
#[local] Abbreviation JSObject := (JSObject num).

Lemma array_index_text (key : string) (i : N) :
  array_index key = Some i -> key = NilEmpty.string_of_uint (N.to_uint i).
Proof.
  unfold array_index. destruct (NilEmpty.uint_of_string key) as [d|];
    [|discriminate].
  destruct (String.eqb_spec (NilEmpty.string_of_uint (N.to_uint (N.of_uint d)))
              key) as [E|_]; [|discriminate].
  simpl. destruct (N.ltb (N.of_uint d) 4294967295); [|discriminate].
  intros H. injection H as <-. now symmetry.
Qed.

Lemma array_index_inj (a b : string) (i : N) :
  array_index a = Some i -> array_index b = Some i -> a = b.
Proof.
  intros Ha Hb. apply array_index_text in Ha, Hb. congruence.
Qed.

Lemma is_index_true (key : string) :
  is_index key = true <-> exists i, array_index key = Some i.
Proof.
  unfold is_index. destruct (array_index key) as [i|]; split;
    try discriminate; eauto. intros [i H]. discriminate.
Qed.

Lemma is_index_false (key : string) :
  is_index key = false <-> array_index key = None.
Proof.
  unfold is_index. destruct (array_index key); split; congruence.
Qed.

Lemma property_order_define_index (o : JSObject) (i : N) (k : string)
  (v : value) :
  array_index k = Some i ->
  ~ In k (Object_keys o) ->
  property_order (Object_keys o) ->
  property_order (Object_keys (define_index o i k v)).
Proof.
  intros Hk. assert (Hik : is_index k = true)
    by (apply is_index_true; eauto).
  induction o as [|[k0 w] o IH]; intros Hnot Hord.
  - simpl. apply order_index; [exact Hik | constructor | apply order_others; constructor].
  - simpl in Hnot. cbn [define_index].
    assert (Hnew : property_order (k :: k0 :: Object_keys o) ->
                   property_order (Object_keys ((k, v) :: (k0, w) :: o)))
      by (intros H; exact H).
    inversion Hord as [keys Hplain|key keys Hi0 Hall Hrest]; subst.
    + inversion Hplain as [|? ? H0 Hp]; subst.
      apply is_index_false in H0. rewrite H0. apply Hnew.
      apply order_index; [exact Hik | | now apply order_others].
      apply Forall_forall. intros x Hx Hxi.
      rewrite Forall_forall in Hplain. rewrite (Hplain x Hx) in Hxi.
      discriminate.
    + destruct (array_index k0) as [j|] eqn:Hj;
        [|apply is_index_true in Hi0; destruct Hi0; congruence].
      destruct (N.ltb_spec j i) as [Hlt|Hge].
      * change (Object_keys ((k0, w) :: define_index o i k v))
          with (k0 :: Object_keys (define_index o i k v)).
        apply order_index; [exact Hi0 | | apply IH; tauto].
        apply Forall_forall. intros x Hx Hxi.
        apply In_define_index in Hx. destruct Hx as [->|Hx].
        -- unfold index_before. now rewrite Hj, Hk.
        -- rewrite Forall_forall in Hall. now apply Hall.
      * assert (Hne : j <> i).
        { intros ->. apply Hnot. left. now apply (array_index_inj k0 k i). }
        apply Hnew. apply order_index; [exact Hik | | exact Hord].
        apply Forall_forall. intros x [<-|Hx] Hxi.
        -- unfold index_before. rewrite Hk, Hj. lia.
        -- rewrite Forall_forall in Hall. specialize (Hall x Hx Hxi).
           unfold index_before in *. rewrite Hk. rewrite Hj in Hall.
           destruct (array_index x); [lia | contradiction].
Qed.

Lemma property_order_snoc (keys : list string) (k : string) :
  is_index k = false -> property_order keys -> property_order (keys ++ [k]).
Proof.
  intros Hk Hord. induction Hord as [keys Hplain|key keys Hi Hall Hrest IH].
  - apply order_others. apply Forall_app. split; [exact Hplain|].
    constructor; [exact Hk | constructor].
  - simpl. apply order_index; [exact Hi | | exact IH].
    apply Forall_app. split; [exact Hall|].
    constructor; [|constructor]. intros H. congruence.
Qed.

Lemma property_order_CreateDataProperty (o : JSObject) (k : string)
  (v : value) :
  property_order (Object_keys o) ->
  property_order (Object_keys (CreateDataProperty o k v)).
Proof.
  intros Hord. unfold CreateDataProperty. destruct (has_own o k) eqn:E.
  - now rewrite keys_replace_value.
  - apply has_own_false in E. destruct (array_index k) as [i|] eqn:Hk.
    + now apply property_order_define_index.
    + unfold Object_keys. rewrite map_app. simpl.
      apply property_order_snoc; [now apply is_index_false | exact Hord].
Qed.

Lemma property_order_spread (source target : JSObject) :
  property_order (Object_keys target) ->
  property_order (Object_keys (spread target source)).
Proof.
  unfold spread, Object_entries. revert target.
  induction source as [|[k v] source IH]; intros target H; [exact H|].
  simpl. apply IH. now apply property_order_CreateDataProperty.
Qed.

(** An ordered list of keys is its array indices, ascending, and then its
    other keys. *)
Lemma property_order_split (keys : list string) :
  property_order keys ->
  exists indices,
    keys = (indices ++ filter (fun k => negb (is_index k)) keys)%list
    /\ Forall (fun k => is_index k = true) indices
    /\ StronglySorted index_before indices.
Proof.
  intros Hord. induction Hord as [keys Hplain|key keys Hi Hall Hrest IH].
  - exists []. split; [|split; constructor]. simpl. symmetry.
    apply forallb_filter_id. apply forallb_forall.
    rewrite Forall_forall in Hplain. intros x Hx. now rewrite (Hplain x Hx).
  - destruct IH as (indices & Heq & Hidx & Hsorted).
    exists (key :: indices). split; [|split].
    + cbn [filter]. rewrite Hi. cbn [negb app]. now rewrite <- Heq.
    + now constructor.
    + constructor; [exact Hsorted|].
      apply Forall_forall. intros x Hx.
      rewrite Forall_forall in Hall, Hidx. apply Hall; [|now apply Hidx].
      rewrite Heq. apply in_or_app. now left.
Qed.

Lemma others_define_index (o : JSObject) (i : N) (k : string) (v : value) :
  is_index k = true ->
  filter (fun x => negb (is_index x)) (Object_keys (define_index o i k v))
  = filter (fun x => negb (is_index x)) (Object_keys o).
Proof.
  intros Hk. induction o as [|[k0 w] o IH]; simpl.
  - now rewrite Hk.
  - destruct (array_index k0) as [j|] eqn:Hj; [destruct (N.ltb j i)|]; simpl;
      rewrite ?Hk; simpl; try reflexivity.
    now rewrite IH.
Qed.

Lemma others_CreateDataProperty (o : JSObject) (k : string) (v : value) :
  filter (fun x => negb (is_index x)) (Object_keys (CreateDataProperty o k v))
  = (filter (fun x => negb (is_index x)) (Object_keys o)
     ++ if andb (negb (is_index k)) (negb (has_own o k)) then [k] else [])%list.
Proof.
  unfold CreateDataProperty. destruct (has_own o k) eqn:E.
  - rewrite keys_replace_value, Bool.andb_false_r. now rewrite app_nil_r.
  - cbn [negb]. rewrite Bool.andb_true_r.
    destruct (array_index k) as [i|] eqn:Hk.
    + assert (Hik : is_index k = true) by (apply is_index_true; eauto).
      rewrite others_define_index by exact Hik. rewrite Hik.
      now rewrite app_nil_r.
    + assert (Hik : is_index k = false) by now apply is_index_false.
      unfold Object_keys. rewrite map_app, filter_app. simpl.
      now rewrite Hik.
Qed.

Lemma others_spread (source target : JSObject) :
  NoDup (Object_keys source) ->
  filter (fun x => negb (is_index x)) (Object_keys (spread target source))
  = (filter (fun x => negb (is_index x)) (Object_keys target)
     ++ filter (fun x => andb (negb (is_index x)) (negb (has_own target x)))
               (Object_keys source))%list.
Proof.
  unfold spread, Object_entries. revert target.
  induction source as [|[k0 v0] source IH]; intros target Hn.
  - simpl. now rewrite app_nil_r.
  - inversion Hn as [|? ? Hk Hn']; subst.
    cbn [fold_left fst snd]. rewrite IH by exact Hn'.
    rewrite others_CreateDataProperty. cbn [Object_keys map fst filter].
    change (map fst source) with (Object_keys source).
    assert (Hsame :
      filter (fun x => andb (negb (is_index x))
                            (negb (has_own (CreateDataProperty target k0 v0) x)))
             (Object_keys source)
      = filter (fun x => andb (negb (is_index x)) (negb (has_own target x)))
               (Object_keys source)).
    { apply filter_ext_in. intros x Hin. f_equal. f_equal.
      destruct (has_own (CreateDataProperty target k0 v0) x) eqn:E,
               (has_own target x) eqn:E'; try reflexivity.
      - apply has_own_In, In_CreateDataProperty in E.
        destruct E as [->|E]; [contradiction|].
        apply has_own_In in E. congruence.
      - apply has_own_In in E'.
        assert (E2 : In x (Object_keys (CreateDataProperty target k0 v0)))
          by (apply In_CreateDataProperty; now right).
        apply has_own_In in E2. congruence. }
    rewrite Hsame.
    destruct (andb (negb (is_index k0)) (negb (has_own target k0)));
      [now rewrite <- app_assoc | now rewrite app_nil_r].
Qed.

(** The keys of a scope and a record merged: the array indices of both,
    ascending, then the other keys of the scope, then the other keys the
    record adds. *)
Lemma merged_key_order (scope object : JSObject) :
  NoDup (Object_keys scope) -> NoDup (Object_keys object) ->
  exists indices,
    Object_keys (spread (spread [] scope) object)
    = (indices
       ++ filter (fun k => negb (is_index k)) (Object_keys scope)
       ++ filter (fun k => andb (negb (is_index k)) (negb (has_own scope k)))
                 (Object_keys object))%list
    /\ Forall (fun k => is_index k = true) indices
    /\ StronglySorted index_before indices.
Proof.
  intros Hs Ho.
  assert (Hord : property_order (Object_keys (spread (spread [] scope) object))).
  { apply property_order_spread, property_order_spread.
    apply order_others. constructor. }
  destruct (property_order_split _ Hord) as (indices & Heq & Hidx & Hsorted).
  exists indices. split; [|split; assumption].
  rewrite Heq at 1. f_equal.
  rewrite others_spread by exact Ho. rewrite others_spread by exact Hs.
  cbn [Object_keys map filter app]. f_equal.
  - apply filter_ext. intros k. simpl. apply Bool.andb_true_r.
  - apply filter_ext. intros k. f_equal. f_equal.
    apply has_own_keys. intros x. rewrite In_spread. simpl. tauto.
Qed.

End KeyOrder.

(** * The claims about the builders *)

Section BuilderClaims.

Context {num : Type} {NUM : JSNumber num} {JSON : JSONRuntime num}
  {W : Type}.

#[local] Abbreviation value := (value num).
#[local] Abbreviation JSObject := (JSObject num).
#[local] Abbreviation SQLStatement := (SQLStatement num).
#[local] Abbreviation Fragment := (Fragment num).
#[local] Abbreviation PostgresVectorStore := (PostgresVectorStore num W).

(** C1.  Every statement the store generates (the scope filter, the insert,
    the distance query, the lookup by key, the delete, and the listing) is
    put together from fixed SQL text, from table and column names that each
    went through [createIdentifier], and from bound parameters: the scope
    values, the record fields, the serialized query vector, the allow-list
    of documents, the limit and the offset, and the key are the bound values
    of the statement, and its text shows a parameter as its position only. *)
Theorem statements_quote_names_and_bind_values
  (this : PostgresVectorStore) (table : string) (object scope : JSObject)
  (mapFunction : option (string -> string)) (operator : string)
  (vector : list num) (documents : option (list value)) (limit offset : num)
  (reference : value) :
  built_from (scope_fragments scope) [] (Object_keys scope)
    (scope_values scope) (createScopeFilter scope)
  /\ (let merged := spread (spread [] scope) object in
      built_from (insert_fragments table merged mapFunction) []
        (table :: map (fun e => column_of mapFunction (fst e)) merged)
        (map (fun e => bound_form (snd e)) merged)
        (createInsertQuery table object scope mapFunction))
  /\ (let vectorCol := mapEmbeddingColumn this "vector" in
      let textCol := mapEmbeddingColumn this "text" in
      let docCol := mapEmbeddingColumn this "document" in
      built_from
        (query_fragments operator vectorCol textCol docCol
           (embeddingTable this) (embeddingScope this) vector documents
           limit offset)
        [" " ++ operator ++ " "]
        ([docCol; textCol; vectorCol; vectorCol; embeddingTable this]
         ++ filter_names (embeddingScope this) docCol documents)
        ([VStr (vector_literal vector)]
         ++ filter_values (embeddingScope this) documents
         ++ [VNum limit; VNum offset])
        (query_statement this operator vector documents limit offset))
  /\ built_from
       (by_id_fragments "SELECT * FROM " (documentTable this) reference
                        (documentScope this))
       [] (documentTable this :: Object_keys (documentScope this))
       (reference :: scope_values (documentScope this))
       (lookup_statement this reference)
  /\ built_from
       (by_id_fragments "DELETE FROM " (documentTable this) reference
                        (documentScope this))
       [] (documentTable this :: Object_keys (documentScope this))
       (reference :: scope_values (documentScope this))
       (delete_statement this reference)
  /\ built_from
       (documents_fragments (documentTable this) (documentScope this))
       [] (documentTable this :: Object_keys (documentScope this))
       (scope_values (documentScope this))
       (documents_statement this).
Proof.
  split; [apply built_from_scope|].
  split; [apply built_from_insert|].
  split; [cbv zeta; rewrite query_statement_fragments; apply built_from_query|].
  split; [rewrite lookup_statement_fragments; apply built_from_by_id;
          unfold sql_vocabulary; simpl; tauto|].
  split; [rewrite delete_statement_fragments; apply built_from_by_id;
          unfold sql_vocabulary; simpl; tauto|].
  rewrite documents_statement_fragments. apply built_from_documents.
Qed.

(** C2.  For a scope of K entries the filter is K clauses, the i-th one the
    quoted i-th key, an equals sign and the i-th parameter, with [AND]
    between two clauses, in the order of the entries; its bound values are
    the values of the entries in that order ([null] for an absent one); and
    it is empty exactly when K = 0. *)
Theorem createScopeFilter_clauses (scope : JSObject) :
  let K := List.length (Object_entries scope) in
  let clauses := scope_clauses 1 (Object_keys scope) in
  List.length clauses = K
  /\ text (createScopeFilter scope) = join_strings " AND " clauses
  /\ values (createScopeFilter scope) = scope_values scope
  /\ List.length (values (createScopeFilter scope)) = K
  /\ (text (createScopeFilter scope) = "" <-> K = 0)
  /\ (createScopeFilter scope = SQL0 "" <-> K = 0).
Proof.
  cbv zeta. unfold Object_entries.
  assert (Hv : values (createScopeFilter scope) = scope_values scope)
    by (rewrite createScopeFilter_fragments, values_assemble;
        apply scope_bound_values).
  split; [rewrite scope_clauses_length; apply length_map|].
  split; [apply text_createScopeFilter|].
  split; [exact Hv|].
  split; [rewrite Hv; apply length_map|].
  assert (Htext : text (createScopeFilter scope) = "" <-> List.length scope = 0).
  { split.
    - intros Ht. destruct scope as [|e rest]; [reflexivity|].
      rewrite createScopeFilter_fragments, text_assemble in Ht.
      pose proof (render_scope_nonempty e rest 0) as Hpos.
      rewrite Ht in Hpos. simpl in Hpos. lia.
    - intros Hk. destruct scope; [reflexivity | discriminate]. }
  split; [exact Htext|].
  split.
  - intros E. apply Htext. now rewrite E.
  - intros Hk. destruct scope; [reflexivity | discriminate].
Qed.

Lemma Array_join_of_numbers (numbers : list num) :
  Array_join (map VNum numbers) ","
  = String.concat "," (map Number_toString numbers).
Proof. unfold Array_join, join_strings. now rewrite map_map. Qed.

(** C5, as the code has it.  The insert merges the scope first and the
    record second: the merged object has the keys of both, and a record
    field overrides the scope entry of the same key.  Its keys are in
    JavaScript's property order: the keys that are array indices first,
    ascending, then the other keys of the scope, then the other keys the
    record adds; so without array indices the scope keys come first and the
    new record keys after them.  The statement names one quoted column and
    binds one value per merged entry, in that order; an array is bound as
    the text of its elements, comma-separated, in square brackets; the
    statement ends with the [RETURNING] clause for the generated key. *)
Theorem createInsertQuery_merges_and_binds (table : string)
  (object scope : JSObject) (mapFunction : option (string -> string)) :
  NoDup (Object_keys scope) -> NoDup (Object_keys object) ->
  let merged := spread (spread [] scope) object in
  let statement := createInsertQuery table object scope mapFunction in
  (forall key, In key (Object_keys merged)
               <-> In key (Object_keys scope) \/ In key (Object_keys object))
  /\ (forall key, get_prop merged key
                  = if has_own object key then get_prop object key
                    else get_prop scope key)
  /\ (exists indices,
        Object_keys merged
        = (indices
           ++ filter (fun key => negb (is_index key)) (Object_keys scope)
           ++ filter (fun key => andb (negb (is_index key))
                                      (negb (has_own scope key)))
                     (Object_keys object))%list
        /\ Forall (fun key => is_index key = true) indices
        /\ StronglySorted index_before indices)
  /\ (Forall (fun key => array_index key = None)
             (Object_keys scope ++ Object_keys object) ->
      Object_keys merged
      = (Object_keys scope
         ++ filter (fun key => negb (has_own scope key)) (Object_keys object))%list)
  /\ inserts_row table (column_of mapFunction) merged statement
  /\ (forall items,
        bound_form (VArr items) = VStr ("[" ++ Array_join items "," ++ "]"))
  /\ (forall numbers : list num,
        bound_form (VArr (map VNum numbers))
        = VStr ("[" ++ String.concat "," (map Number_toString numbers) ++ "]"))
  /\ (forall v, Array_isArray v = false -> bound_form v = v)
  /\ ends_with (text statement)
       (") RETURNING " ++ quote_mark ++ "id" ++ quote_mark).
Proof.
  intros Hs Ho merged statement.
  assert (Hown : forall key, has_own (spread [] scope) key = has_own scope key).
  { intros key. apply has_own_keys. intros x. rewrite In_spread. simpl. tauto. }
  assert (Htext : text statement
                  = "INSERT INTO " ++ createIdentifier table ++ " ("
                    ++ String.concat ", "
                         (map (fun e => createIdentifier
                                          (column_of mapFunction (fst e)))
                              merged)
                    ++ ") VALUES ("
                    ++ String.concat ", " (placeholders 1 (List.length merged))
                    ++ ") RETURNING " ++ quote_mark ++ "id" ++ quote_mark)
    by apply text_createInsertQuery.
  split.
  { intros key. unfold merged. rewrite !In_spread. simpl. tauto. }
  split.
  { intros key. unfold merged. rewrite get_prop_spread by exact Ho.
    destruct (has_own object key); [reflexivity|].
    rewrite get_prop_spread by exact Hs.
    destruct (has_own scope key) eqn:E; [reflexivity|].
    simpl. symmetry. now apply get_prop_absent. }
  split; [now apply merged_key_order|].
  split.
  { intros Hplain. apply Forall_app in Hplain. destruct Hplain as [Hp1 Hp2].
    unfold merged. rewrite keys_spread_plain by assumption.
    rewrite spread_empty_keys by assumption. f_equal.
    apply filter_ext. intros key. now rewrite Hown. }
  split.
  { split; [exact Htext|].
    unfold statement. rewrite createInsertQuery_fragments, values_assemble.
    fold merged. unfold insert_fragments. rewrite !bound_values_app.
    pose proof (separated_identifiers (num := num)
                  (map (fun e => column_of mapFunction (fst e)) merged))
      as (_ & _ & Hb1).
    pose proof (separated_bound (map (fun e => bound_form (snd e)) merged))
      as (_ & _ & Hb2).
    rewrite map_map in Hb1. rewrite map_map in Hb2.
    rewrite Hb1, Hb2. simpl. now rewrite app_nil_r. }
  split; [reflexivity|].
  split; [intros numbers; cbn [bound_form]; now rewrite Array_join_of_numbers|].
  split; [intros v Hv; destruct v; try reflexivity; discriminate|].
  rewrite Htext. eexists. rewrite <- !string_app_assoc. reflexivity.
Qed.

End BuilderClaims.

(** A scope of one entry and an embedding whose own [scope] field overrides
    it. *)
Example createInsertQuery_merges_and_binds_witness :
  let scope : JSObject Z := [("scope", VStr "test")] in
  let object : JSObject Z :=
    [("text", VStr "Hello"); ("vector", VArr [VNum 1%Z; VNum 2%Z]);
     ("scope", VStr "mine")] in
  values (createInsertQuery "embeddings" object scope None)
  = [VStr "mine"; VStr "Hello"; VStr "[1,2]"]
  /\ text (createInsertQuery "embeddings" object scope None)
     = "INSERT INTO " ++ quote_mark ++ "embeddings" ++ quote_mark ++ " ("
       ++ quote_mark ++ "scope" ++ quote_mark ++ ", "
       ++ quote_mark ++ "text" ++ quote_mark ++ ", "
       ++ quote_mark ++ "vector" ++ quote_mark
       ++ ") VALUES ($1, $2, $3) RETURNING "
       ++ quote_mark ++ "id" ++ quote_mark.
Proof.
  cbv zeta.
  destruct (createInsertQuery_merges_and_binds (num := Z) "embeddings"
              [("text", VStr "Hello"); ("vector", VArr [VNum 1%Z; VNum 2%Z]);
               ("scope", VStr "mine")]
              [("scope", VStr "test")] None)
    as (_ & _ & _ & _ & (Htext & Hvalues) & _).
  - repeat (constructor; [simpl; intuition discriminate|]). constructor.
  - repeat (constructor; [simpl; intuition discriminate|]). constructor.
  - split; [exact Hvalues | exact Htext].
Defined.

(** C5, as stated, fails: a record key that is an array index is listed
    before the scope keys, so its column and its value come first in the
    insert. *)
Example record_key_before_the_scope_keys :
  let scope : JSObject Z := [("scope", VStr "test")] in
  let object : JSObject Z := [("0", VNum 5%Z)] in
  ~ (forall (scope object : JSObject Z),
       NoDup (Object_keys scope) -> NoDup (Object_keys object) ->
       Object_keys (spread (spread [] scope) object)
       = (Object_keys scope
          ++ filter (fun key => negb (has_own scope key))
                    (Object_keys object))%list)
  /\ text (createInsertQuery "embeddings" object scope None)
     = "INSERT INTO " ++ quote_mark ++ "embeddings" ++ quote_mark ++ " ("
       ++ quote_mark ++ "0" ++ quote_mark ++ ", "
       ++ quote_mark ++ "scope" ++ quote_mark
       ++ ") VALUES ($1, $2) RETURNING " ++ quote_mark ++ "id" ++ quote_mark
  /\ values (createInsertQuery "embeddings" object scope None)
     = [VNum 5%Z; VStr "test"].
Proof.
  cbv zeta. split; [|split; reflexivity].
  intros H.
  specialize (H [("scope", VStr "test")] [("0", VNum 5%Z)]).
  assert (Hkeys : Object_keys (spread (spread [] [("scope", VStr "test")])
                                      ([("0", VNum 5%Z)] : JSObject Z))
                  = ["0"; "scope"]) by reflexivity.
  rewrite Hkeys in H.
  assert (Hfalse : ["0"; "scope"] = ["scope"; "0"]).
  { apply H; repeat (constructor; [simpl; intuition discriminate|]);
      constructor. }
  discriminate.
Qed.

(** * The claims about the facade *)

Section FacadeClaims.

Context {num : Type} {NUM : JSNumber num} {JSON : JSONRuntime num}
  {W : Type}.

#[local] Abbreviation value := (value num).
#[local] Abbreviation JSObject := (JSObject num).
#[local] Abbreviation SQLStatement := (SQLStatement num).
#[local] Abbreviation PostgresVectorStore := (PostgresVectorStore num W).
#[local] Abbreviation Session := (Session num W).

Lemma pool_query_run (p : Pool num W) (stmt : SQLStatement) (s : Session)
  (outcome : Error + QueryResult num) (w' : W) :
  run_statement p stmt (fst s) = (outcome, w') ->
  pool_query p stmt s = (outcome, (w', (snd s ++ [stmt])%list)).
Proof. intros H. unfold pool_query. now rewrite H. Qed.

(** The four supported algorithms and their operators. *)
Lemma operator_table_supported :
  operator_table "l2" = Own "<->"
  /\ operator_table "l1" = Own "<+>"
  /\ operator_table "negative_inner_product" = Own "<#>"
  /\ operator_table "cosine" = Own "<=>".
Proof. repeat split. Qed.

(** With an operator of its own, [query] sends the distance statement with
    that operator, and the stream is what the pool made of it. *)
Lemma query_sends (this : PostgresVectorStore) (vector : list num)
  (documents : option (list value)) (limit offset : option num) (s : Session)
  (outcome : Error + QueryResult num) (w' : W) :
  let stmt :=
    query_statement this (lookup_text (operator_table (algorithm this)))
      vector documents (or_default limit (Number_of_Z 10))
      (or_default offset (Number_of_Z 0)) in
  truthy (operator_table (algorithm this)) = true ->
  run_statement (pool this) stmt (fst s) = (outcome, w') ->
  query this vector documents limit offset s
  = (inr (promise_then outcome
            (fun result => map_throwing decode_row (rows result))),
     (w', (snd s ++ [stmt])%list)).
Proof.
  intros stmt Ht Hrun. unfold query, bind, assert. rewrite Ht.
  unfold ret. fold stmt. now rewrite (pool_query_run _ _ _ _ _ Hrun).
Qed.

(** A key that is neither in the table nor on [Object.prototype] is
    rejected before anything is sent. *)
Lemma query_rejects_missing (this : PostgresVectorStore) (vector : list num)
  (documents : option (list value)) (limit offset : option num) (s : Session) :
  operator_table (algorithm this) = Missing ->
  query this vector documents limit offset s
  = (inl (AssertionError
            ("Unsupported distance algorithm: " ++ algorithm this)), s).
Proof. intros H. unfold query, bind, assert. now rewrite H. Qed.

(** A key found on [Object.prototype] passes the assertion: the statement is
    sent with the text of the inherited property where the operator goes. *)
Lemma query_accepts_inherited (this : PostgresVectorStore) (shown : string)
  (vector : list num) (documents : option (list value))
  (limit offset : option num) (s : Session) :
  operator_table (algorithm this) = Inherited shown ->
  exists stream s',
    query this vector documents limit offset s = (inr stream, s')
    /\ snd s'
       = (snd s
          ++ [query_statement this shown vector documents
                (or_default limit (Number_of_Z 10))
                (or_default offset (Number_of_Z 0))])%list.
Proof.
  intros H.
  destruct (run_statement (pool this)
              (query_statement this shown vector documents
                 (or_default limit (Number_of_Z 10))
                 (or_default offset (Number_of_Z 0))) (fst s))
    as [outcome w'] eqn:Hrun.
  pose proof (query_sends this vector documents limit offset s outcome w') as Hq.
  cbv zeta in Hq. rewrite H in Hq. simpl in Hq.
  specialize (Hq eq_refl Hrun). rewrite Hq. eauto.
Qed.

Lemma map_throwing_inr {A B} (f : A -> Error + B) (l : list A) (bs : list B) :
  map_throwing f l = inr bs ->
  List.length bs = List.length l
  /\ forall i a, nth_error l i = Some a ->
       exists b, nth_error bs i = Some b /\ f a = inr b.
Proof.
  revert bs. induction l as [|a l IH]; intros bs H; simpl in H.
  - injection H as <-. split; [reflexivity|]. intros [|i] a Hi; discriminate.
  - destruct (f a) as [e|b] eqn:Ef; [discriminate|].
    destruct (map_throwing f l) as [e|bs'] eqn:El; [discriminate|].
    injection H as <-. destruct (IH bs' eq_refl) as [Hlen Hnth].
    split; [simpl; now rewrite Hlen|].
    intros [|i] a' Hi; simpl in *.
    + injection Hi as <-. eauto.
    + now apply Hnth.
Qed.

Lemma decode_row_distance (row : JSObject) (r : EmbeddingResult num) :
  decode_row row = inr r ->
  result_distance r = get_prop row "distance"
  /\ result_text r = get_prop row "text"
  /\ result_document r = get_prop row "document"
  /\ JSON_parse (ToString (get_prop row "vector")) = Some (result_vector r).
Proof.
  unfold decode_row.
  destruct (JSON_parse (ToString (get_prop row "vector"))) as [v|];
    [|discriminate].
  intros H. injection H as <-. auto.
Qed.


Lemma decode_row_reads (row : JSObject) (v : value) :
  JSON_parse (ToString (get_prop row "vector")) = Some v ->
  decode_row row
  = inr {| result_text := get_prop row "text";
           result_vector := v;
           result_distance := get_prop row "distance";
           result_document := get_prop row "document" |}.
Proof. intros H. unfold decode_row. now rewrite H. Qed.

Lemma decode_row_fails (row : JSObject) :
  JSON_parse (ToString (get_prop row "vector")) = None ->
  decode_row row = inl (SyntaxError (ToString (get_prop row "vector"))).
Proof. intros H. unfold decode_row. now rewrite H. Qed.

Lemma map_throwing_decodes (rows : list JSObject) :
  Forall (fun row => JSON_parse (ToString (get_prop row "vector")) <> None)
         rows ->
  exists results, map_throwing decode_row rows = inr results.
Proof.
  induction 1 as [|row rows Hrow _ [results IH]]; [now exists []|].
  destruct (JSON_parse (ToString (get_prop row "vector"))) as [v|] eqn:E;
    [|congruence].
  eexists. cbn [map_throwing]. rewrite (decode_row_reads row v E), IH.
  reflexivity.
Qed.


End FacadeClaims.

(** ** Inserts, lookups and streams *)

Section Operations.

Context {num : Type} {NUM : JSNumber num} {JSON : JSONRuntime num}
  {W : Type}.

#[local] Abbreviation value := (value num).
#[local] Abbreviation JSObject := (JSObject num).
#[local] Abbreviation SQLStatement := (SQLStatement num).
#[local] Abbreviation PostgresVectorStore := (PostgresVectorStore num W).
#[local] Abbreviation Session := (Session num W).

(** [createDocument] insists on one row and returns its key. *)
Lemma createDocument_requires_one_row (this : PostgresVectorStore)
  (document : JSObject) (s : Session) (returned : list JSObject) (w' : W) :
  let stmt :=
    createInsertQuery (documentTable this) document (documentScope this) None in
  run_statement (pool this) stmt (fst s) = (inr (mkResult returned), w') ->
  createDocument this document s
  = (match returned with
     | [row] => inr (get_prop row "id")
     | _ => inl (AssertionError "Expected one row to be returned")
     end, (w', (snd s ++ [stmt])%list)).
Proof.
  intros stmt Hrun. unfold createDocument, bind.
  fold stmt. rewrite (pool_query_run _ _ _ _ _ Hrun).
  destruct returned as [|row [|row' more]]; reflexivity.
Qed.

(** [append] does not look at what an insert returned. *)
Lemma append_ignores_returned_rows (this : PostgresVectorStore)
  (document : value) (embedding : JSObject) (s : Session)
  (returned : list JSObject) (w' : W) :
  let stmt := embedding_insert this document embedding in
  run_statement (pool this) stmt (fst s) = (inr (mkResult returned), w') ->
  append this document [embedding] s
  = (inr tt, (w', (snd s ++ [stmt])%list)).
Proof.
  intros stmt Hrun. unfold append, bind.
  fold stmt. now rewrite (pool_query_run _ _ _ _ _ Hrun).
Qed.

Lemma append_runs (this : PostgresVectorStore) (document : value)
  (embeddings : list JSObject) (w : W) (journal : list SQLStatement) :
  let stmts := map (embedding_insert this document) embeddings in
  match first_failure (pool this) stmts w with
  | None =>
      append this document embeddings (w, journal)
      = (inr tt, (replay (pool this) stmts w, (journal ++ stmts)%list))
  | Some (k, e) =>
      k < List.length embeddings
      /\ first_failure (pool this) (firstn k stmts) w = None
      /\ append this document embeddings (w, journal)
         = (inl e, (replay (pool this) (firstn (S k) stmts) w,
                    (journal ++ firstn (S k) stmts)%list))
  end.
Proof.
  cbv zeta. revert w journal.
  induction embeddings as [|embedding rest IH]; intros w journal.
  - simpl. now rewrite app_nil_r.
  - cbn [map first_failure append]. unfold bind, pool_query. cbn [fst snd].
    destruct (run_statement (pool this)
                (embedding_insert this document embedding) w)
      as [[e|result] w1] eqn:Hrun.
    + cbn [firstn]. split; [simpl; lia|]. split; [reflexivity|].
      unfold replay. simpl. now rewrite Hrun.
    + specialize (IH w1 (journal ++ [embedding_insert this document embedding])%list).
      destruct (first_failure (pool this)
                  (map (embedding_insert this document) rest) w1)
        as [[k e]|].
      * destruct IH as (Hk & Hfirst & Happ).
        split; [simpl; lia|]. split.
        { cbn [firstn first_failure]. rewrite Hrun. now rewrite Hfirst. }
        rewrite Happ. rewrite <- app_assoc.
        unfold replay. cbn [firstn fold_left app]. now rewrite Hrun.
      * rewrite IH. rewrite <- app_assoc.
        unfold replay. cbn [fold_left app]. now rewrite Hrun.
Qed.

Lemma values_createInsertQuery (table : string) (object scope : JSObject)
  (mapFunction : option (string -> string)) :
  values (createInsertQuery table object scope mapFunction)
  = map (fun e => bound_form (snd e)) (spread (spread [] scope) object).
Proof.
  rewrite createInsertQuery_fragments, values_assemble.
  unfold insert_fragments. rewrite !bound_values_app.
  pose proof (separated_identifiers (num := num)
                (map (fun e => column_of mapFunction (fst e))
                     (spread (spread [] scope) object)))
    as (_ & _ & Hb1).
  pose proof (separated_bound
                (map (fun e => bound_form (snd e))
                     (spread (spread [] scope) object)))
    as (_ & _ & Hb2).
  rewrite map_map in Hb1. rewrite map_map in Hb2.
  rewrite Hb1, Hb2. simpl. now rewrite app_nil_r.
Qed.

Lemma embedding_row_entries (scope embedding : JSObject) (document : value) :
  NoDup (Object_keys scope) -> NoDup (Object_keys embedding) ->
  embedding_entries scope embedding document
    (spread (spread [] scope) (embedding_row embedding document)).
Proof.
  intros Hs He.
  assert (Hrow : NoDup (Object_keys (embedding_row embedding document))).
  { unfold embedding_row. apply NoDup_CreateDataProperty, NoDup_spread.
    constructor. }
  assert (Hin : forall key,
             In key (Object_keys (embedding_row embedding document))
             <-> key = "document" \/ In key (Object_keys embedding)).
  { intros key. unfold embedding_row.
    rewrite In_CreateDataProperty, In_spread. simpl. tauto. }
  split; [|split].
  - apply NoDup_spread, NoDup_spread. constructor.
  - intros key. change (map fst (spread (spread [] scope)
                                         (embedding_row embedding document)))
      with (Object_keys (spread (spread [] scope)
                                (embedding_row embedding document))).
    rewrite !In_spread, Hin. simpl. unfold Object_keys. tauto.
  - intros key. rewrite get_prop_spread by exact Hrow.
    unfold embedding_row at 2. rewrite get_prop_CreateDataProperty.
    rewrite (String.eqb_sym key "document").
    destruct (String.eqb_spec "document" key) as [<-|Hne].
    + assert (Hown : has_own (embedding_row embedding document) "document"
                     = true) by (apply has_own_In, Hin; now left).
      now rewrite Hown.
    + assert (Hown : has_own (embedding_row embedding document) key
                     = has_own embedding key).
      { destruct (has_own embedding key) eqn:E.
        - apply has_own_In, Hin. right. now apply has_own_In.
        - apply has_own_false. intros H. apply Hin in H.
          destruct H as [H|H]; [congruence|].
          apply has_own_In in H. congruence. }
      rewrite Hown. destruct (has_own embedding key) eqn:E.
      * rewrite get_prop_spread by exact He. now rewrite E.
      * rewrite get_prop_spread by exact Hs.
        destruct (has_own scope key) eqn:E'; [reflexivity|].
        simpl. symmetry. now apply get_prop_absent.
Qed.

Lemma embedding_insert_inserts_row (this : PostgresVectorStore)
  (document : value) (embedding : JSObject) :
  inserts_row (embeddingTable this) (mapEmbeddingColumn this)
    (spread (spread [] (embeddingScope this))
            (embedding_row embedding document))
    (embedding_insert this document embedding).
Proof.
  unfold embedding_insert. split.
  - apply text_createInsertQuery.
  - apply values_createInsertQuery.
Qed.

(** C7.  [append] turns N embeddings into N statements, one per element and
    in input order, and sends nothing else.  The statement for an element
    is an insert into the embedding table, on its own, of the row of that
    element: the fields of the embedding, the [document] key set to the
    document, and the entries of the embedding scope.  When every insert
    succeeds the journal grows by exactly these N statements; when the
    insert of element k is the first to fail, the k inserts before it have
    run, each on its own, the failed one is the last statement sent, and the
    error is the outcome, so the backend is left as those statements made
    it.  An empty input sends nothing and leaves the session as it was. *)
Theorem append_one_insert_per_embedding (this : PostgresVectorStore)
  (document : value) (embeddings : list JSObject) (s : Session) :
  NoDup (Object_keys (embeddingScope this)) ->
  Forall (fun embedding => NoDup (Object_keys embedding)) embeddings ->
  exists stmts,
    Forall2
      (fun embedding st =>
         exists row,
           inserts_row (embeddingTable this) (mapEmbeddingColumn this) row st
           /\ embedding_entries (embeddingScope this) embedding document row)
      embeddings stmts
    /\ List.length stmts = List.length embeddings
    /\ match first_failure (pool this) stmts (fst s) with
       | None =>
           append this document embeddings s
           = (inr tt,
              (replay (pool this) stmts (fst s), (snd s ++ stmts)%list))
       | Some (k, e) =>
           k < List.length embeddings
           /\ first_failure (pool this) (firstn k stmts) (fst s) = None
           /\ append this document embeddings s
              = (inl e, (replay (pool this) (firstn (S k) stmts) (fst s),
                         (snd s ++ firstn (S k) stmts)%list))
       end
    /\ append this document [] s = (inr tt, s).
Proof.
  intros Hscope Hall.
  exists (map (embedding_insert this document) embeddings).
  split; [|split; [apply length_map|split; [|reflexivity]]].
  - induction Hall as [|embedding rest He Hrest IH]; [constructor|].
    cbn [map]. constructor; [|exact IH].
    eexists. split; [apply embedding_insert_inserts_row|].
    now apply embedding_row_entries.
  - destruct s as [w journal]. apply append_runs.
Qed.

(** C8.  [getDocumentByReference] selects by the key and, after [AND], by
    the clauses of the document scope; the outcome is the first row of the
    result, and when the result has no row it is the absent value, not an
    error. *)
Theorem getDocumentByReference_absent_is_a_value (this : PostgresVectorStore)
  (reference : value) (s : Session) (returned : list JSObject) (w' : W) :
  let stmt := lookup_statement this reference in
  run_statement (pool this) stmt (fst s) = (inr (mkResult returned), w') ->
  getDocumentByReference this reference s
  = (inr (match returned with [] => None | row :: _ => Some row end),
     (w', (snd s ++ [stmt])%list))
  /\ text stmt
     = "SELECT * FROM " ++ createIdentifier (documentTable this)
       ++ " WHERE " ++ quote_mark ++ "id" ++ quote_mark ++ " = $1"
       ++ match documentScope this with
          | [] => ""
          | _ => " AND "
                 ++ join_strings " AND "
                      (scope_clauses 2 (Object_keys (documentScope this)))
          end
  /\ values stmt = reference :: scope_values (documentScope this).
Proof.
  intros stmt Hrun. split.
  { unfold getDocumentByReference, bind. fold stmt.
    rewrite (pool_query_run _ _ _ _ _ Hrun). unfold ret.
    now destruct returned. }
  unfold stmt. rewrite lookup_statement_fragments.
  rewrite text_assemble, values_assemble. unfold by_id_fragments.
  pose proof (scope_bound_values (documentScope this)) as Hb.
  pose proof (render_scope (documentScope this) 1) as Hr.
  destruct (documentScope this) as [|e rest].
  - split; [|reflexivity]. cbn [app render]. string_assoc. reflexivity.
  - split.
    + cbn [app render]. rewrite Hr. string_assoc. reflexivity.
    + cbn [app bound_values]. now rewrite Hb.
Qed.

(** C9, as the code has it.  [getDocuments] and [query] send their statement
    when they are called, once; the stream they return is backed by the
    whole result of that one call: it holds every row the pool returned, in
    the order of the rows, before the consumer reads the first element.
    For [query] what it holds is one result per row, made of the text, the
    distance and the document of the row and of the value its vector column
    reads as, all of them read before the first is delivered; there are as
    many as rows whenever every vector column is a JSON text. *)
Theorem streams_hold_the_whole_result (this : PostgresVectorStore)
  (vector : list num) (documents : option (list value))
  (limit offset : option num) (s : Session)
  (listed found : list JSObject) (w1 w2 : W) :
  let stmt :=
    query_statement this (lookup_text (operator_table (algorithm this)))
      vector documents
      (match limit with Some l => l | None => Number_of_Z 10 end)
      (match offset with Some o => o | None => Number_of_Z 0 end) in
  run_statement (pool this) (documents_statement this) (fst s)
  = (inr (mkResult listed), w1) ->
  truthy (operator_table (algorithm this)) = true ->
  run_statement (pool this) stmt (fst s) = (inr (mkResult found), w2) ->
  (exists stream,
     getDocuments this s
     = (inr stream, (w1, (snd s ++ [documents_statement this])%list))
     /\ toArray stream = inr listed
     /\ buffered stream = List.length listed)
  /\ (exists stream,
        query this vector documents limit offset s
        = (inr stream, (w2, (snd s ++ [stmt])%list))
        /\ (forall results, toArray stream = inr results ->
              buffered stream = List.length found
              /\ List.length results = List.length found
              /\ forall i row, nth_error found i = Some row ->
                   exists r,
                     nth_error results i = Some r
                     /\ result_text r = get_prop row "text"
                     /\ result_distance r = get_prop row "distance"
                     /\ result_document r = get_prop row "document"
                     /\ JSON_parse (ToString (get_prop row "vector"))
                        = Some (result_vector r))
        /\ (Forall (fun row =>
                      JSON_parse (ToString (get_prop row "vector")) <> None)
                   found ->
            exists results,
              toArray stream = inr results
              /\ buffered stream = List.length found)).
Proof.
  intros stmt Hlist Ht Hfind. split.
  - eexists. split; [|split].
    + unfold getDocuments. rewrite (pool_query_run _ _ _ _ _ Hlist).
      reflexivity.
    + reflexivity.
    + reflexivity.
  - eexists. split; [|split].
    + apply (query_sends this vector documents limit offset s
               (inr (mkResult found)) w2 Ht).
      destruct limit, offset; exact Hfind.
    + intros results Hres. unfold toArray in Hres. simpl in Hres.
      destruct (map_throwing_inr decode_row found results Hres) as [Hl Hn].
      unfold buffered. simpl. rewrite Hres.
      split; [exact Hl|]. split; [exact Hl|].
      intros i row Hi. destruct (Hn i row Hi) as (r & Hr & Hdecode).
      exists r. split; [exact Hr|].
      destruct (decode_row_distance row r Hdecode) as (Hd & Htx & Hdoc & Hv).
      auto.
    + intros Hall. destruct (map_throwing_decodes found Hall) as [results Hr].
      exists results. unfold toArray, buffered. simpl. rewrite Hr.
      split; [reflexivity|].
      now destruct (map_throwing_inr decode_row found results Hr).
Qed.

End Operations.

(** ** The text of a vector, written and read back *)

Section VectorText.

Context {num : Type} {NUM : JSNumber num} {JSON : JSONRuntime num}
  {W : Type}.

#[local] Abbreviation value := (value num).
#[local] Abbreviation JSObject := (JSObject num).
#[local] Abbreviation PostgresVectorStore := (PostgresVectorStore num W).













End VectorText.

(** * The store at work on a scripted pool *)

(** C3, at an algorithm that [Object.prototype] knows.  With [constructor]
    for the algorithm, [query] raises nothing: it sends a statement that has
    the text of the inherited function where the operator goes. *)
Example query_accepts_an_inherited_algorithm :
  let store := scripted_store (Some "constructor") None in
  let sent :=
    query_statement store (native_function "Object") [1; 2; 3]%Z None 10%Z 0%Z in
  query store [1; 2; 3]%Z None None None ([], []) = (inr (inr []), ([], [sent]))
  /\ text sent
     = "SELECT " ++ createIdentifier "document" ++ " AS document, "
       ++ createIdentifier "text" ++ " AS text, "
       ++ createIdentifier "vector" ++ " AS vector, "
       ++ createIdentifier "vector"
       ++ " function Object() { [native code] } $1 AS distance FROM "
       ++ createIdentifier "embeddings"
       ++ " ORDER BY distance ASC LIMIT $2 OFFSET $3".
Proof. split; reflexivity. Qed.

(** An algorithm nobody knows is rejected and nothing is sent. *)
Example query_rejects_an_unknown_algorithm :
  query (scripted_store (Some "euclid") None) [1; 2; 3]%Z None None None ([], [])
  = (inl (AssertionError "Unsupported distance algorithm: euclid"), ([], [])).
Proof. reflexivity. Qed.

(** C6, at an insert that returns no row, and at one that returns two.
    [append] completes normally on both; [createDocument] fails on both. *)
Example append_completes_whatever_the_insert_returns :
  let store := scripted_store None None in
  let none : Error + QueryResult Z := inr (mkResult []) in
  let two : Error + QueryResult Z :=
    inr (mkResult [[("id", VNum 1%Z)]; [("id", VNum 2%Z)]]) in
  append store (VNum 7%Z) [hello] ([none], [])
  = (inr tt, ([], [embedding_insert store (VNum 7%Z) hello]))
  /\ append store (VNum 7%Z) [hello] ([two], [])
     = (inr tt, ([], [embedding_insert store (VNum 7%Z) hello]))
  /\ fst (createDocument store [("name", VStr "Doc")] ([none], []))
     = inl (AssertionError "Expected one row to be returned")
  /\ fst (createDocument store [("name", VStr "Doc")] ([two], []))
     = inl (AssertionError "Expected one row to be returned")
  /\ fst (createDocument store [("name", VStr "Doc")] ([inr (one_row 5)], []))
     = inr (VNum 5%Z).
Proof. repeat split; reflexivity. Qed.

(** Three embeddings, the second insert failing: two statements were sent,
    the third answer of the script was never asked for. *)
Example append_stops_at_the_first_failure :
  let store := scripted_store None None in
  let script : list (Error + QueryResult Z) :=
    [inr (one_row 1); inl (BackendError "connection lost"); inr (one_row 2)] in
  append store (VNum 7%Z) [hello; world; hello] (script, [])
  = (inl (BackendError "connection lost"),
     ([inr (one_row 2)],
      [embedding_insert store (VNum 7%Z) hello;
       embedding_insert store (VNum 7%Z) world])).
Proof. reflexivity. Qed.

(** Two embeddings appended by a scoped store on a pool that accepts every
    insert: two statements, and nothing else, were sent. *)
Example append_one_insert_per_embedding_witness :
  let store := scripted_store None (Some [("scope", VStr "test")]) in
  exists first second,
    append store (VNum 7%Z) [hello; world] ([], [])
    = (inr tt, ([], [first; second]))
    /\ (exists row,
          inserts_row "embeddings" (fun column => column) row first
          /\ embedding_entries [("scope", VStr "test")] hello (VNum 7%Z) row)
    /\ (exists row,
          inserts_row "embeddings" (fun column => column) row second
          /\ embedding_entries [("scope", VStr "test")] world (VNum 7%Z) row).
Proof.
  cbv zeta.
  destruct (append_one_insert_per_embedding
              (scripted_store None (Some [("scope", VStr "test")]))
              (VNum 7%Z) [hello; world] ([], []))
    as (stmts & Heach & Hcount & Hrun & _).
  - repeat constructor; simpl; intuition discriminate.
  - repeat constructor; simpl; intuition discriminate.
  - destruct stmts as [|first [|second [|third rest]]]; try discriminate.
    exists first, second. split; [exact Hrun|].
    inversion Heach as [|e1 s1 l1 l1' Hfirst Hrest]; subst.
    inversion Hrest as [|e2 s2 l2 l2' Hsecond _]; subst.
    split; [exact Hfirst | exact Hsecond].
Defined.



(** A lookup that the scoped store answers with no row. *)
Example getDocumentByReference_absent_is_a_value_witness :
  let store := scripted_store None (Some [("scope", VStr "test")]) in
  getDocumentByReference store (VNum 42%Z) ([inr (mkResult [])], [])
  = (inr None, ([], [lookup_statement store (VNum 42%Z)]))
  /\ text (lookup_statement store (VNum 42%Z))
     = "SELECT * FROM " ++ quote_mark ++ "documents" ++ quote_mark
       ++ " WHERE " ++ quote_mark ++ "id" ++ quote_mark ++ " = $1"
       ++ " AND " ++ quote_mark ++ "scope" ++ quote_mark ++ " = $2"
  /\ values (lookup_statement store (VNum 42%Z)) = [VNum 42%Z; VStr "test"].
Proof.
  cbv zeta.
  destruct (getDocumentByReference_absent_is_a_value
              (scripted_store None (Some [("scope", VStr "test")]))
              (VNum 42%Z) ([inr (mkResult [])], []) [] [])
    as (Hget & Htext & Hvalues).
  - reflexivity.
  - split; [exact Hget|]. split; [exact Htext | exact Hvalues].
Defined.

(** C9, as stated, fails: on a result of three rows the stream holds the
    three rows before the consumer has read one, for [getDocuments] and for
    [query]. *)
Example streams_do_not_pull_row_by_row :
  ~ (forall (s : Session Z (list (Error + QueryResult Z))) stream s',
       getDocuments (scripted_store None None) s = (inr stream, s') ->
       buffered stream <= 1)
  /\ ~ (forall (s : Session Z (list (Error + QueryResult Z))) stream s',
          query (scripted_store None None) [1; 2; 3]%Z None None None s
          = (inr stream, s') ->
          buffered stream <= 1).
Proof.
  split; intros H.
  - specialize (H ([inr (mkResult [[("id", VNum 1%Z)]; [("id", VNum 2%Z)];
                                   [("id", VNum 3%Z)]])], [])
                  _ _ eq_refl).
    simpl in H. lia.
  - specialize (H ([inr (mkResult [found_row "a" "[1,2,3]" 0;
                                   found_row "b" "[1,2,4]" 1;
                                   found_row "c" "[1,2,5]" 2])], [])
                  _ _ eq_refl).
    vm_compute in H. lia.
Qed.

(** A listing of two rows, and a distance query answered with the same two
    rows: each stream holds both. *)
Example streams_hold_the_whole_result_witness :
  let store := scripted_store None None in
  let answer := [found_row "a" "[1,2,3]" 0; found_row "b" "[1,2,4]" 1] in
  (exists stream s',
     getDocuments store ([inr (mkResult answer)], []) = (inr stream, s')
     /\ toArray stream = inr answer
     /\ buffered stream = 2)
  /\ (exists stream s' results,
        query store [1; 2; 3]%Z None None None ([inr (mkResult answer)], [])
        = (inr stream, s')
        /\ toArray stream = inr results
        /\ buffered stream = 2).
Proof.
  cbv zeta.
  destruct (streams_hold_the_whole_result
              (scripted_store None None) [1; 2; 3]%Z None None None
              ([inr (mkResult [found_row "a" "[1,2,3]" 0;
                               found_row "b" "[1,2,4]" 1])], [])
              [found_row "a" "[1,2,3]" 0; found_row "b" "[1,2,4]" 1]
              [found_row "a" "[1,2,3]" 0; found_row "b" "[1,2,4]" 1]
              [] [])
    as ((stream & Hget & Harray & Hheld)
        & (found & Hquery & _ & Hsome)).
  - reflexivity.
  - reflexivity.
  - reflexivity.
  - split.
    + exists stream. eexists. split; [exact Hget|]. split; assumption.
    + destruct Hsome as (results & Hr & Hb).
      { repeat constructor; discriminate. }
      exists found. eexists. exists results.
      split; [exact Hquery|]. split; assumption.
Defined.


(** * Further properties of the code *)

(** ** Identifier quoting *)

Lemma read_quoted_double_quotes (name rest : string) :
  begins_with dquote rest = false ->
  read_quoted (double_quotes name ++ dq ++ rest) = Some (name, rest).
Proof.
  intros Hrest. induction name as [|c name IH].
  - cbn [double_quotes String.append dq read_quoted].
    rewrite Ascii.eqb_refl. destruct rest as [|c' rest']; [reflexivity|].
    simpl in Hrest. now rewrite Hrest.
  - cbn [double_quotes]. destruct (Ascii.eqb c dquote) eqn:E.
    + apply Ascii.eqb_eq in E. subst c.
      cbn [String.append read_quoted]. rewrite !Ascii.eqb_refl.
      now rewrite IH.
    + cbn [String.append read_quoted]. rewrite E. now rewrite IH.
Qed.

Lemma createIdentifier_followed (name rest : string) :
  createIdentifier name ++ rest
  = String dquote (double_quotes name ++ dq ++ rest).
Proof.
  unfold createIdentifier, dq. cbn [String.append].
  now rewrite !string_app_assoc.
Qed.

(** X1.  A quoted name reads back as the name, whatever the name holds and
    whatever text follows it, provided that text does not start with a
    quote: the reader stops exactly at the closing quote. *)
Theorem createIdentifier_reads_back (name rest : string) :
  begins_with dquote rest = false ->
  read_identifier (createIdentifier name ++ rest) = Some (name, rest).
Proof.
  intros Hrest. rewrite createIdentifier_followed.
  cbn [read_identifier]. rewrite Ascii.eqb_refl.
  now apply read_quoted_double_quotes.
Qed.

(** X2.  Two names that quote to the same text are the same name. *)
Theorem createIdentifier_injective (a b : string) :
  createIdentifier a = createIdentifier b -> a = b.
Proof.
  intros H.
  assert (Ha : read_quoted (double_quotes a ++ dq ++ "") = Some (a, ""))
    by now apply read_quoted_double_quotes.
  assert (Hb : read_quoted (double_quotes b ++ dq ++ "") = Some (b, ""))
    by now apply read_quoted_double_quotes.
  unfold createIdentifier in H. injection H as H.
  rewrite !string_app_nil_r in Ha, Hb. rewrite H in Ha. congruence.
Qed.

Lemma double_quotes_length (s : string) :
  String.length (double_quotes s) = String.length s + count_quotes s.
Proof.
  induction s as [|c s IH]; [reflexivity|].
  cbn [double_quotes count_quotes]. destruct (Ascii.eqb c dquote); simpl;
    rewrite IH; lia.
Qed.

(** X3.  The quoted text is the name between two quotes with every quote of
    the name written twice: its length is the length of the name, plus the
    number of quotes in the name, plus two; it is never empty. *)
Theorem createIdentifier_length (name : string) :
  String.length (createIdentifier name)
  = String.length name + count_quotes name + 2
  /\ begins_with dquote (createIdentifier name) = true
  /\ createIdentifier name <> "".
Proof.
  unfold createIdentifier, dq. split; [|split].
  - cbn [String.append String.length].
    rewrite string_length_app, double_quotes_length. simpl. lia.
  - reflexivity.
  - discriminate.
Qed.

(** ** Which algorithms pass the assertion *)

Lemma Object_prototype_known (key : string) :
  In key Object_prototype_keys ->
  exists shown, Object_prototype key = Inherited shown.
Proof.
  unfold Object_prototype_keys. simpl.
  intros H.
  repeat (destruct H as [<-|H]; [eexists; reflexivity|]).
  contradiction.
Qed.

Lemma Object_prototype_unknown (key : string) :
  ~ In key Object_prototype_keys -> Object_prototype key = Missing.
Proof.
  intros H. unfold Object_prototype.
  destruct (String.eqb_spec key "constructor") as [->|_];
    [exfalso; apply H; simpl; tauto|].
  destruct (String.eqb_spec key "__proto__") as [->|_];
    [exfalso; apply H; simpl; tauto|].
  destruct (existsb (String.eqb key) _) eqn:E; [|reflexivity].
  apply existsb_exists in E. destruct E as (x & Hin & Heq).
  apply String.eqb_eq in Heq. subst x.
  exfalso. apply H. unfold Object_prototype_keys. simpl in *. tauto.
Qed.

Lemma truthy_operator_table (algorithm : string) :
  truthy (operator_table algorithm)
  = existsb (String.eqb algorithm)
            (supported_algorithms ++ Object_prototype_keys).
Proof.
  destruct (existsb (String.eqb algorithm)
              (supported_algorithms ++ Object_prototype_keys)) eqn:E.
  - apply existsb_exists in E. destruct E as (x & Hin & Heq).
    apply String.eqb_eq in Heq. subst x.
    apply in_app_or in Hin. destruct Hin as [Hs|Hp].
    + unfold supported_algorithms in Hs. simpl in Hs.
      repeat (destruct Hs as [<-|Hs]; [reflexivity|]). contradiction.
    + unfold Object_prototype_keys in Hp. simpl in Hp.
      repeat (destruct Hp as [<-|Hp]; [reflexivity|]). contradiction.
  - assert (Hnot : ~ In algorithm
                       (supported_algorithms ++ Object_prototype_keys)).
    { intros Hin. apply Bool.not_true_iff_false in E. apply E.
      apply existsb_exists. exists algorithm. split; [exact Hin|].
      apply String.eqb_refl. }
    unfold operator_table.
    destruct (String.eqb_spec algorithm "l2") as [->|_];
      [exfalso; apply Hnot; simpl; tauto|].
    destruct (String.eqb_spec algorithm "l1") as [->|_];
      [exfalso; apply Hnot; simpl; tauto|].
    destruct (String.eqb_spec algorithm "negative_inner_product") as [->|_];
      [exfalso; apply Hnot; simpl; tauto|].
    destruct (String.eqb_spec algorithm "cosine") as [->|_];
      [exfalso; apply Hnot; simpl; tauto|].
    rewrite Object_prototype_unknown; [reflexivity|].
    intros Hin. apply Hnot. apply in_or_app. now right.
Qed.

Section Assertion.

Context {num : Type} {NUM : JSNumber num} {JSON : JSONRuntime num}
  {W : Type}.

(** X4.  [query] raises its assertion exactly for the algorithms that are
    neither one of the four supported ones nor a property of
    [Object.prototype]: for those the outcome is the error that names the
    algorithm and the session is untouched; for every other algorithm the
    call returns a stream and has sent exactly one statement. *)
Theorem query_assertion_cases (this : PostgresVectorStore num W)
  (vector : list num) (documents : option (list (value num)))
  (limit offset : option num) (s : Session num W) :
  if existsb (String.eqb (algorithm this))
             (supported_algorithms ++ Object_prototype_keys)
  then exists stream w',
         query this vector documents limit offset s
         = (inr stream,
            (w', (snd s
                  ++ [query_statement this
                        (lookup_text (operator_table (algorithm this)))
                        vector documents
                        (or_default limit (Number_of_Z 10))
                        (or_default offset (Number_of_Z 0))])%list))
  else query this vector documents limit offset s
       = (inl (AssertionError
                 ("Unsupported distance algorithm: " ++ algorithm this)), s).
Proof.
  rewrite <- truthy_operator_table.
  destruct (truthy (operator_table (algorithm this))) eqn:Ht.
  - destruct (run_statement (pool this)
                (query_statement this
                   (lookup_text (operator_table (algorithm this)))
                   vector documents (or_default limit (Number_of_Z 10))
                   (or_default offset (Number_of_Z 0))) (fst s))
      as [outcome w'] eqn:Hrun.
    eexists. exists w'.
    apply (query_sends this vector documents limit offset s outcome w' Ht Hrun).
  - unfold query, bind, assert. now rewrite Ht.
Qed.

End Assertion.

(** ** The text of the statements of the facade *)

Section FacadeTexts.

Context {num : Type} {NUM : JSNumber num} {JSON : JSONRuntime num}
  {W : Type}.

#[local] Abbreviation value := (value num).
#[local] Abbreviation JSObject := (JSObject num).
#[local] Abbreviation SQLStatement := (SQLStatement num).
#[local] Abbreviation Fragment := (Fragment num).
#[local] Abbreviation PostgresVectorStore := (PostgresVectorStore num W).
#[local] Abbreviation Session := (Session num W).

Lemma scope_values_length (scope : JSObject) :
  List.length (scope_values scope) = List.length scope.
Proof. apply length_map. Qed.

Lemma filter_values_length (scope : JSObject)
  (documents : option (list value)) :
  List.length (filter_values scope documents) = filter_count scope documents.
Proof.
  unfold filter_values, filter_count. rewrite length_app, scope_values_length.
  now destruct documents.
Qed.

Lemma render_where (scope : JSObject) (docCol : string)
  (documents : option (list value)) :
  render 1 (where_fragments scope docCol documents)
  = where_text scope docCol documents.
Proof.
  pose proof (render_scope scope 1) as Hr.
  pose proof (scope_bound_values scope) as Hb.
  unfold where_fragments, where_text.
  destruct scope as [|e rest]; destruct documents as [keys|].
  - cbn [render]. string_assoc. reflexivity.
  - reflexivity.
  - change (Keyword " WHERE " :: scope_fragments (e :: rest) ++
            [Keyword " AND "; Identifier docCol; Keyword " = ANY(";
             Bound (VArr keys); Keyword ")"])%list
      with ([Keyword " WHERE "] ++ scope_fragments (e :: rest) ++
            [Keyword " AND "; Identifier docCol; Keyword " = ANY(";
             Bound (VArr keys); Keyword ")"])%list.
    rewrite !render_app, Hb, scope_values_length.
    cbn [render bound_values List.length Nat.add]. rewrite Hr.
    cbn [render bound_values List.length Nat.add].
    string_assoc. repeat f_equal. lia.
  - cbn [render]. rewrite Hr. reflexivity.
Qed.

Lemma text_query_statement (this : PostgresVectorStore) (operator : string)
  (vector : list num) (documents : option (list value)) (limit offset : num) :
  text (query_statement this operator vector documents limit offset)
  = "SELECT " ++ createIdentifier (mapEmbeddingColumn this "document")
    ++ " AS document, " ++ createIdentifier (mapEmbeddingColumn this "text")
    ++ " AS text, " ++ createIdentifier (mapEmbeddingColumn this "vector")
    ++ " AS vector, " ++ createIdentifier (mapEmbeddingColumn this "vector")
    ++ " " ++ operator ++ " $1 AS distance FROM "
    ++ createIdentifier (embeddingTable this)
    ++ where_text (embeddingScope this) (mapEmbeddingColumn this "document")
                  documents
    ++ " ORDER BY distance ASC LIMIT $"
    ++ show_nat (filter_count (embeddingScope this) documents + 2)
    ++ " OFFSET $"
    ++ show_nat (filter_count (embeddingScope this) documents + 3).
Proof.
  rewrite query_statement_fragments, text_assemble.
  destruct (where_fragments_parts (embeddingScope this)
              (mapEmbeddingColumn this "document") documents [])
    as (_ & _ & Hb).
  unfold query_fragments. rewrite !render_app, Hb, filter_values_length.
  cbn [bound_values List.length Nat.add]. rewrite render_where.
  cbn [render].
  replace (S (S (filter_count (embeddingScope this) documents)))
    with (filter_count (embeddingScope this) documents + 2) by lia.
  replace (S (filter_count (embeddingScope this) documents + 2))
    with (filter_count (embeddingScope this) documents + 3) by lia.
  string_assoc. now rewrite string_app_nil_r.
Qed.

(** X5.  The text of the distance query: the three columns under their
    aliases, the distance of the vector column to the first parameter under
    the chosen operator, the table, a [WHERE] only when the scope is not
    empty or an allow-list is given (the scope clauses from the second
    parameter on, then the allow-list, joined by [AND]), the ordering, and
    [LIMIT] and [OFFSET] as the last two parameters.  The values are the
    vector text, the filter values, the limit and the offset. *)
Theorem query_statement_text (this : PostgresVectorStore) (operator : string)
  (vector : list num) (documents : option (list value)) (limit offset : num) :
  let stmt := query_statement this operator vector documents limit offset in
  let filters := filter_count (embeddingScope this) documents in
  text stmt
  = "SELECT " ++ createIdentifier (mapEmbeddingColumn this "document")
    ++ " AS document, " ++ createIdentifier (mapEmbeddingColumn this "text")
    ++ " AS text, " ++ createIdentifier (mapEmbeddingColumn this "vector")
    ++ " AS vector, " ++ createIdentifier (mapEmbeddingColumn this "vector")
    ++ " " ++ operator ++ " $1 AS distance FROM "
    ++ createIdentifier (embeddingTable this)
    ++ where_text (embeddingScope this) (mapEmbeddingColumn this "document")
                  documents
    ++ " ORDER BY distance ASC LIMIT $" ++ show_nat (filters + 2)
    ++ " OFFSET $" ++ show_nat (filters + 3)
  /\ values stmt
     = (VStr (vector_literal vector)
        :: filter_values (embeddingScope this) documents
        ++ [VNum limit; VNum offset])%list
  /\ List.length (values stmt) = filters + 3.
Proof.
  cbv zeta. split; [apply text_query_statement|].
  assert (Hv : values (query_statement this operator vector documents limit offset)
               = (VStr (vector_literal vector)
                  :: filter_values (embeddingScope this) documents
                  ++ [VNum limit; VNum offset])%list).
  { rewrite query_statement_fragments, values_assemble.
    destruct (where_fragments_parts (embeddingScope this)
                (mapEmbeddingColumn this "document") documents [])
      as (_ & _ & Hb).
    unfold query_fragments. rewrite !bound_values_app, Hb. reflexivity. }
  split; [exact Hv|].
  rewrite Hv. cbn [List.length]. rewrite length_app, filter_values_length.
  simpl. lia.
Qed.

(** X6.  The text of the distance query does not depend on the data: two
    queries of one store with the same operator have the same text whatever
    their vectors, limits, offsets and allow-lists are, as long as both give
    an allow-list or both give none. *)
Theorem query_text_ignores_the_data (this : PostgresVectorStore)
  (operator : string) (vector vector' : list num) (keys keys' : list value)
  (limit limit' offset offset' : num) :
  text (query_statement this operator vector (Some keys) limit offset)
  = text (query_statement this operator vector' (Some keys') limit' offset')
  /\ text (query_statement this operator vector None limit offset)
     = text (query_statement this operator vector' None limit' offset').
Proof. rewrite !text_query_statement. split; reflexivity. Qed.

Lemma text_by_id (verb table : string) (reference : value) (scope : JSObject) :
  render 0 (by_id_fragments verb table reference scope)
  = verb ++ createIdentifier table ++ where_id ++ "$1"
    ++ match scope with
       | [] => ""
       | _ => " AND "
              ++ join_strings " AND " (scope_clauses 2 (Object_keys scope))
       end.
Proof.
  pose proof (render_scope scope 1) as Hr. unfold by_id_fragments.
  destruct scope as [|e rest].
  - cbn [app render]. string_assoc. reflexivity.
  - cbn [app render]. rewrite Hr. string_assoc. reflexivity.
Qed.

(** X7.  [delete] sends one statement, the delete by key and by the clauses
    of the document scope, and its outcome is the pool's: it completes
    whatever rows the pool reports, also when no row was deleted, and it
    fails with the pool's own error. *)
Theorem delete_sends_one_statement (this : PostgresVectorStore)
  (document : value) (s : Session) (outcome : Error + QueryResult num)
  (w' : W) :
  let stmt := delete_statement this document in
  run_statement (pool this) stmt (fst s) = (outcome, w') ->
  delete this document s
  = (match outcome with inl e => inl e | inr _ => inr tt end,
     (w', (snd s ++ [stmt])%list))
  /\ text stmt
     = "DELETE FROM " ++ createIdentifier (documentTable this)
       ++ " WHERE " ++ quote_mark ++ "id" ++ quote_mark ++ " = $1"
       ++ match documentScope this with
          | [] => ""
          | _ => " AND "
                 ++ join_strings " AND "
                      (scope_clauses 2 (Object_keys (documentScope this)))
          end
  /\ values stmt = document :: scope_values (documentScope this).
Proof.
  intros stmt Hrun. split.
  { unfold delete, bind. fold stmt. rewrite (pool_query_run _ _ _ _ _ Hrun).
    now destruct outcome. }
  unfold stmt. rewrite delete_statement_fragments.
  rewrite text_assemble, values_assemble. split; [apply text_by_id|].
  pose proof (scope_bound_values (documentScope this)) as Hb.
  unfold by_id_fragments.
  destruct (documentScope this) as [|e rest]; [reflexivity|].
  cbn [app bound_values]. now rewrite Hb.
Qed.

(** X8.  The listing selects every column of the document table; it has a
    [WHERE] exactly when the document scope is not empty, with one clause
    per entry from the first parameter on, and it binds the scope values
    and nothing else. *)
Theorem documents_statement_text (this : PostgresVectorStore) :
  text (documents_statement this)
  = "SELECT * FROM " ++ createIdentifier (documentTable this)
    ++ match documentScope this with
       | [] => ""
       | _ => " WHERE "
              ++ join_strings " AND "
                   (scope_clauses 1 (Object_keys (documentScope this)))
       end
  /\ values (documents_statement this) = scope_values (documentScope this).
Proof.
  rewrite documents_statement_fragments, text_assemble, values_assemble.
  pose proof (render_scope (documentScope this) 0) as Hr.
  pose proof (scope_bound_values (documentScope this)) as Hb.
  unfold documents_fragments.
  destruct (documentScope this) as [|e rest].
  - split; [|reflexivity]. cbn [app render]. string_assoc. reflexivity.
  - split.
    + cbn [app render]. rewrite Hr. string_assoc. reflexivity.
    + cbn [app bound_values]. now rewrite Hb.
Qed.

Lemma well_formed_assemble (fs : list Fragment) : well_formed (assemble fs).
Proof.
  unfold assemble, add_fragments.
  assert (H : forall st, well_formed st -> well_formed (fold_left add_fragment fs st)).
  { induction fs as [|f fs IH]; intros st Hst; [exact Hst|].
    simpl. apply IH. now apply well_formed_add_fragment. }
  apply H. reflexivity.
Qed.

(** X9.  Every statement the store builds has exactly one more literal
    string than bound values: one gap between two literal strings for each
    value. *)
Theorem statements_pair_strings_and_values (this : PostgresVectorStore)
  (table : string) (object scope : JSObject)
  (mapFunction : option (string -> string)) (operator : string)
  (vector : list num) (documents : option (list value)) (limit offset : num)
  (reference : value) :
  Forall (fun st : SQLStatement =>
            List.length (strings st) = S (List.length (values st)))
    [createScopeFilter scope;
     createInsertQuery table object scope mapFunction;
     query_statement this operator vector documents limit offset;
     lookup_statement this reference;
     delete_statement this reference;
     documents_statement this].
Proof.
  rewrite createScopeFilter_fragments, createInsertQuery_fragments,
    query_statement_fragments, lookup_statement_fragments,
    delete_statement_fragments, documents_statement_fragments.
  repeat (apply Forall_cons; [apply well_formed_assemble|]).
  constructor.
Qed.

End FacadeTexts.

(** ** Outcomes of the operations *)

Section Outcomes.

Context {num : Type} {NUM : JSNumber num} {JSON : JSONRuntime num}
  {W : Type}.

#[local] Abbreviation value := (value num).
#[local] Abbreviation JSObject := (JSObject num).
#[local] Abbreviation SQLStatement := (SQLStatement num).
#[local] Abbreviation PostgresVectorStore := (PostgresVectorStore num W).
#[local] Abbreviation Session := (Session num W).

Lemma pool_query_fails (p : Pool num W) (stmt : SQLStatement) (s : Session)
  (e : Error) :
  fst (run_statement p stmt (fst s)) = inl e ->
  exists s', pool_query p stmt s = (inl e, s').
Proof.
  intros H. unfold pool_query.
  destruct (run_statement p stmt (fst s)) as [r w']. simpl in H. subst r.
  eauto.
Qed.

(** X10.  An error of the pool reaches the caller unchanged.  When the pool
    fails with [e] on whatever it is sent, [createDocument],
    [getDocumentByReference], [delete] and [append] of at least one
    embedding fail with [e]; [query] (with an algorithm that passes the
    assertion) and [getDocuments] still return a stream, and it is reading
    the stream that fails with [e]. *)
Theorem pool_errors_reach_the_caller (this : PostgresVectorStore)
  (e : Error) (s : Session) (record embedding : JSObject)
  (more : list JSObject) (key : value) (vector : list num)
  (documents : option (list value)) (limit offset : option num) :
  (forall stmt, fst (run_statement (pool this) stmt (fst s)) = inl e) ->
  truthy (operator_table (algorithm this)) = true ->
  fst (createDocument this record s) = inl e
  /\ fst (getDocumentByReference this key s) = inl e
  /\ fst (delete this key s) = inl e
  /\ fst (append this key (embedding :: more) s) = inl e
  /\ (exists stream,
        fst (query this vector documents limit offset s) = inr stream
        /\ toArray stream = inl e)
  /\ (exists stream,
        fst (getDocuments this s) = inr stream /\ toArray stream = inl e).
Proof.
  intros Hfail Ht.
  assert (Hq : forall stmt, exists s', pool_query (pool this) stmt s = (inl e, s'))
    by (intros stmt; apply pool_query_fails, Hfail).
  split.
  { unfold createDocument, bind.
    destruct (Hq (createInsertQuery (documentTable this) record
                    (documentScope this) None)) as [s' ->].
    reflexivity. }
  split.
  { unfold getDocumentByReference, bind.
    destruct (Hq (lookup_statement this key)) as [s' ->]. reflexivity. }
  split.
  { unfold delete, bind.
    destruct (Hq (delete_statement this key)) as [s' ->]. reflexivity. }
  split.
  { cbn [append]. unfold bind.
    destruct (Hq (embedding_insert this key embedding)) as [s' ->].
    reflexivity. }
  split.
  { unfold query, bind, assert. rewrite Ht. unfold ret.
    destruct (Hq (query_statement this
                    (lookup_text (operator_table (algorithm this)))
                    vector documents (or_default limit (Number_of_Z 10))
                    (or_default offset (Number_of_Z 0)))) as [s' ->].
    eexists. split; reflexivity. }
  unfold getDocuments.
  destruct (Hq (documents_statement this)) as [s' ->].
  eexists. split; reflexivity.
Qed.

(** X11.  [createDocument] sends its insert first and checks the answer
    afterwards: when the answer has no row or several rows the call fails
    with the assertion, and the insert has been run all the same; when it
    has one row the call returns the [id] of that row, which is [undefined]
    when the row has no such column. *)
Theorem createDocument_checks_after_the_insert (this : PostgresVectorStore)
  (document : JSObject) (s : Session) (returned : list JSObject) (w' : W) :
  let stmt :=
    createInsertQuery (documentTable this) document (documentScope this) None in
  run_statement (pool this) stmt (fst s) = (inr (mkResult returned), w') ->
  snd (createDocument this document s) = (w', (snd s ++ [stmt])%list)
  /\ (List.length returned <> 1 ->
      fst (createDocument this document s)
      = inl (AssertionError "Expected one row to be returned"))
  /\ (forall row, returned = [row] ->
      fst (createDocument this document s) = inr (get_prop row "id")
      /\ (has_own row "id" = false ->
          fst (createDocument this document s) = inr VUndefined)).
Proof.
  intros stmt Hrun.
  rewrite (createDocument_requires_one_row this document s returned w' Hrun).
  split; [reflexivity|]. split.
  - intros Hlen. destruct returned as [|row [|row' more]]; try reflexivity.
    simpl in Hlen. contradiction.
  - intros row ->. split; [reflexivity|].
    intros Hid. cbn [fst]. now rewrite (get_prop_absent row "id" Hid).
Qed.

(** X12.  Appending a sequence that is two sequences one after the other is
    appending the first and then, if that did not fail, the second: the
    same statements in the same order and the same outcome. *)
Theorem append_of_a_concatenation (this : PostgresVectorStore)
  (document : value) (first second : list JSObject) (s : Session) :
  append this document (first ++ second) s
  = bind (append this document first)
         (fun _ => append this document second) s.
Proof.
  revert s. induction first as [|embedding first IH]; intros s.
  - reflexivity.
  - cbn [app append]. unfold bind.
    destruct (pool_query (pool this)
                (embedding_insert this document embedding) s)
      as [[e|result] s1]; [reflexivity|].
    rewrite IH. reflexivity.
Qed.

Lemma get_prop_position (o : JSObject) (key : string) :
  has_own o key = true ->
  exists i, nth_error o i = Some (key, get_prop o key).
Proof.
  induction o as [|[k v] o IH]; simpl; [discriminate|].
  destruct (String.eqb_spec k key) as [->|N]; intros H.
  - exists 0. reflexivity.
  - destruct (IH H) as [i Hi]. exists (S i). exact Hi.
Qed.

(** X13.  Every row [append] inserts references the document it was given:
    in the insert for an embedding, the column of the [document] key is
    bound to the [document] argument, whatever [document] field the
    embedding has of its own and whatever the embedding scope says under
    that key. *)
Theorem append_binds_the_given_document (this : PostgresVectorStore)
  (document : value) (embedding : JSObject) :
  let merged :=
    spread (spread [] (embeddingScope this)) (embedding_row embedding document) in
  let stmt := embedding_insert this document embedding in
  get_prop merged "document" = document
  /\ exists i,
       nth_error (map (fun e => createIdentifier (mapEmbeddingColumn this (fst e)))
                      merged) i
       = Some (createIdentifier (mapEmbeddingColumn this "document"))
       /\ nth_error (values stmt) i = Some (bound_form document).
Proof.
  intros merged stmt.
  assert (Hrow : NoDup (Object_keys (embedding_row embedding document))).
  { unfold embedding_row. apply NoDup_CreateDataProperty, NoDup_spread.
    constructor. }
  assert (Hown : has_own (embedding_row embedding document) "document" = true).
  { apply has_own_In. unfold embedding_row. apply In_CreateDataProperty.
    now left. }
  assert (Hget : get_prop merged "document" = document).
  { unfold merged. rewrite get_prop_spread by exact Hrow. rewrite Hown.
    unfold embedding_row. rewrite get_prop_CreateDataProperty.
    now rewrite String.eqb_refl. }
  split; [exact Hget|].
  assert (Hin : has_own merged "document" = true).
  { apply has_own_In. unfold merged. apply In_spread. right.
    now apply has_own_In. }
  destruct (get_prop_position merged "document" Hin) as [i Hi].
  rewrite Hget in Hi. exists i. split.
  - now rewrite (map_nth_error _ _ _ Hi).
  - unfold stmt, embedding_insert.
    rewrite createInsertQuery_fragments, values_assemble. fold merged.
    unfold insert_fragments. rewrite !bound_values_app.
    pose proof (separated_identifiers (num := num)
                  (map (fun e => column_of (Some (mapEmbeddingColumn this)) (fst e))
                       merged)) as (_ & _ & Hb1).
    pose proof (separated_bound (map (fun e => bound_form (snd e)) merged))
      as (_ & _ & Hb2).
    rewrite map_map in Hb1. rewrite map_map in Hb2.
    rewrite Hb1, Hb2. cbn [bound_values app]. rewrite app_nil_r.
    now rewrite (map_nth_error _ _ _ Hi).
Qed.

Lemma scope_clauses_In (keys : list string) (key : string) (n : nat) :
  In key keys ->
  exists i, In (createIdentifier key ++ " = $" ++ show_nat i)
               (scope_clauses n keys).
Proof.
  revert n. induction keys as [|k keys IH]; intros n; [intros []|].
  intros [->|Hin].
  - exists n. now left.
  - destruct (IH (S n) Hin) as [i Hi]. exists i. now right.
Qed.

(** X14.  [append] passes every key of the merged row through
    [mapEmbeddingColumn], the keys of the embedding scope included, whereas
    the filter of [query] names the keys of the embedding scope as they
    are: under a mapping that renames a scope key, a row is written to one
    column and filtered on another. *)
Theorem append_maps_the_scope_keys (this : PostgresVectorStore)
  (document : value) (embedding : JSObject) (key : string) :
  In key (Object_keys (embeddingScope this)) ->
  let merged :=
    spread (spread [] (embeddingScope this)) (embedding_row embedding document) in
  text (embedding_insert this document embedding)
  = "INSERT INTO " ++ createIdentifier (embeddingTable this) ++ " ("
    ++ join_strings ", "
         (map (fun e => createIdentifier (mapEmbeddingColumn this (fst e)))
              merged)
    ++ ") VALUES ("
    ++ join_strings ", " (placeholders 1 (List.length merged))
    ++ returning_id
  /\ In key (Object_keys merged)
  /\ In (createIdentifier (mapEmbeddingColumn this key))
        (map (fun e => createIdentifier (mapEmbeddingColumn this (fst e)))
             merged)
  /\ text (createScopeFilter (embeddingScope this))
     = join_strings " AND "
         (scope_clauses 1 (Object_keys (embeddingScope this)))
  /\ exists i,
       In (createIdentifier key ++ " = $" ++ show_nat i)
          (scope_clauses 1 (Object_keys (embeddingScope this))).
Proof.
  intros Hkey merged.
  assert (Hin : In key (Object_keys merged)).
  { unfold merged. rewrite !In_spread. left. now right. }
  split.
  { unfold embedding_insert. apply text_createInsertQuery. }
  split; [exact Hin|]. split.
  { unfold Object_keys in Hin. apply in_map_iff in Hin.
    destruct Hin as ([k v] & Hk & Hin). simpl in Hk. subst k.
    apply in_map_iff. exists (key, v). split; [reflexivity | exact Hin]. }
  split; [apply text_createScopeFilter | now apply scope_clauses_In].
Qed.

End Outcomes.

(** ** Keys, texts and defaults *)

Section KeysAndTexts.

Context {num : Type} {NUM : JSNumber num} {JSON : JSONRuntime num}
  {W : Type}.

#[local] Abbreviation value := (value num).
#[local] Abbreviation JSObject := (JSObject num).
#[local] Abbreviation SQLStatement := (SQLStatement num).
#[local] Abbreviation PostgresVectorStore := (PostgresVectorStore num W).
#[local] Abbreviation Session := (Session num W).

Lemma keys_define_index_ext (o o' : JSObject) (i : N) (k : string)
  (v v' : value) :
  Object_keys o = Object_keys o' ->
  Object_keys (define_index o i k v) = Object_keys (define_index o' i k v').
Proof.
  revert o'. induction o as [|[k0 w] o IH]; intros [|[k0' w'] o'] H;
    try discriminate; [reflexivity|].
  simpl in H. injection H as <- H. simpl.
  destruct (array_index k0) as [j|]; [destruct (N.ltb j i)|]; simpl.
  - f_equal. now apply IH.
  - f_equal. f_equal. exact H.
  - f_equal. f_equal. exact H.
Qed.

Lemma keys_CreateDataProperty_ext (o o' : JSObject) (k : string)
  (v v' : value) :
  Object_keys o = Object_keys o' ->
  Object_keys (CreateDataProperty o k v)
  = Object_keys (CreateDataProperty o' k v').
Proof.
  intros H. unfold CreateDataProperty.
  rewrite (has_own_keys o o' k) by (intros x; now rewrite H).
  destruct (has_own o' k).
  - now rewrite !keys_replace_value.
  - destruct (array_index k).
    + now apply keys_define_index_ext.
    + unfold Object_keys in *. rewrite !map_app, H. reflexivity.
Qed.

Lemma keys_spread_ext (s s' t t' : JSObject) :
  Object_keys t = Object_keys t' -> Object_keys s = Object_keys s' ->
  Object_keys (spread t s) = Object_keys (spread t' s').
Proof.
  unfold spread, Object_entries. revert s' t t'.
  induction s as [|[k v] s IH]; intros [|[k' v'] s'] t t' Ht Hs;
    try discriminate; [exact Ht|].
  simpl in Hs. injection Hs as <- Hs. simpl. apply IH; [|exact Hs].
  now apply keys_CreateDataProperty_ext.
Qed.

(** X15.  The text of a scope filter and the text of an insert depend on
    the keys only: two scopes with the same keys, and two records with the
    same keys, give the same texts, whatever values they hold. *)
Theorem texts_depend_on_the_keys_only (table : string)
  (object object' scope scope' : JSObject)
  (mapFunction : option (string -> string)) :
  Object_keys scope = Object_keys scope' ->
  Object_keys object = Object_keys object' ->
  text (createScopeFilter scope) = text (createScopeFilter scope')
  /\ text (createInsertQuery table object scope mapFunction)
     = text (createInsertQuery table object' scope' mapFunction).
Proof.
  intros Hs Ho. split.
  - rewrite !text_createScopeFilter. now rewrite Hs.
  - rewrite !text_createInsertQuery.
    assert (Hk : Object_keys (spread (spread [] scope) object)
                 = Object_keys (spread (spread [] scope') object'))
      by (apply keys_spread_ext; [apply keys_spread_ext|]; auto).
    set (merged := spread (spread [] scope) object) in *.
    set (merged' := spread (spread [] scope') object') in *.
    assert (Hcols : map (fun e : string * value =>
                           createIdentifier (column_of mapFunction (fst e)))
                        merged
                    = map (fun e : string * value =>
                             createIdentifier (column_of mapFunction (fst e)))
                          merged').
    { rewrite <- (map_map fst (fun k => createIdentifier (column_of mapFunction k)) merged).
      rewrite <- (map_map fst (fun k => createIdentifier (column_of mapFunction k)) merged').
      unfold Object_keys in Hk. now rewrite Hk. }
    assert (Hlen : List.length merged = List.length merged').
    { rewrite <- (length_map fst merged), <- (length_map fst merged').
      unfold Object_keys in Hk. now rewrite Hk. }
    now rewrite Hcols, Hlen.
Qed.

Lemma keys_define_index_plain (o : JSObject) (i : N) (k : string) (v : value) :
  Forall (fun key => array_index key = None) (Object_keys o) ->
  Object_keys (define_index o i k v) = k :: Object_keys o.
Proof.
  destruct o as [|[k0 w] o]; [reflexivity|]. simpl.
  intros H. inversion H as [|? ? H0 _]; subst. now rewrite H0.
Qed.

(** X16.  A record key that is an array index is listed before the scope
    keys: merged into a scope without such keys, a new key that is the
    text of an array index comes first among the keys of the merged
    object. *)
Theorem index_key_goes_first (scope : JSObject) (key : string) (v : value) :
  Forall (fun k => array_index k = None) (Object_keys scope) ->
  NoDup (Object_keys scope) ->
  array_index key <> None ->
  Object_keys (spread (spread [] scope) [(key, v)])
  = key :: Object_keys scope.
Proof.
  intros Hplain Hn Hindex.
  assert (Hkeys : Object_keys (spread [] scope) = Object_keys scope)
    by now apply spread_empty_keys.
  assert (Hnot : ~ In key (Object_keys scope)).
  { intros Hin. apply Hindex.
    rewrite Forall_forall in Hplain. now apply Hplain. }
  unfold spread at 1. unfold Object_entries. cbn [fold_left fst snd].
  unfold CreateDataProperty.
  assert (Hown : has_own (spread [] scope) key = false)
    by (apply has_own_false; now rewrite Hkeys).
  rewrite Hown. destruct (array_index key) as [i|]; [|contradiction].
  rewrite keys_define_index_plain by now rewrite Hkeys.
  now rewrite Hkeys.
Qed.


(** X18.  A store that is given only a pool uses the tables [documents] and
    [embeddings], no scope, the column names as they are and the cosine
    operator; and [query] without a limit and an offset asks for 10 rows
    from offset 0. *)
Theorem store_defaults (p : Pool num W) (vector : list num) (s : Session) :
  let this :=
    constructor
      {| config_pool := p; config_algorithm := None;
         config_mapEmbeddingColumn := None; config_documentScope := None;
         config_embeddingScope := None; config_documentTable := None;
         config_embeddingTable := None |} in
  text (documents_statement this)
  = "SELECT * FROM " ++ createIdentifier "documents"
  /\ (forall columnName, mapEmbeddingColumn this columnName = columnName)
  /\ exists stream w' stmt,
       query this vector None None None s
       = (inr stream, (w', (snd s ++ [stmt])%list))
       /\ text stmt
          = "SELECT " ++ createIdentifier "document" ++ " AS document, "
            ++ createIdentifier "text" ++ " AS text, "
            ++ createIdentifier "vector" ++ " AS vector, "
            ++ createIdentifier "vector" ++ " <=> $1 AS distance FROM "
            ++ createIdentifier "embeddings"
            ++ " ORDER BY distance ASC LIMIT $2 OFFSET $3"
       /\ values stmt
          = [VStr (vector_literal vector); VNum (Number_of_Z 10);
             VNum (Number_of_Z 0)].
Proof.
  intros this. split; [reflexivity|]. split; [reflexivity|].
  destruct (run_statement p
              (query_statement this "<=>" vector None (Number_of_Z 10)
                               (Number_of_Z 0)) (fst s))
    as [outcome w'] eqn:Hrun.
  eexists. exists w'. eexists. split.
  - apply (query_sends this vector None None None s outcome w');
      [reflexivity | exact Hrun].
  - split.
    + rewrite text_query_statement. reflexivity.
    + rewrite query_statement_fragments, values_assemble. reflexivity.
Qed.

End KeysAndTexts.

(** ** Round trips to the pool and undecodable rows *)

Section RoundTrips.

Context {num : Type} {NUM : JSNumber num} {JSON : JSONRuntime num}
  {W : Type}.

#[local] Abbreviation value := (value num).
#[local] Abbreviation JSObject := (JSObject num).
#[local] Abbreviation PostgresVectorStore := (PostgresVectorStore num W).
#[local] Abbreviation Session := (Session num W).

Lemma pool_query_journal (p : Pool num W) (stmt : SQLStatement num)
  (s : Session) :
  snd (snd (pool_query p stmt s)) = (snd s ++ [stmt])%list.
Proof.
  unfold pool_query. now destruct (run_statement p stmt (fst s)).
Qed.

(** X19.  Every operation but [append] makes exactly one round trip to the
    pool, whatever the pool answers and whether the operation then fails or
    not; [query] makes none when its assertion fails. *)
Theorem one_statement_per_operation (this : PostgresVectorStore)
  (record : JSObject) (key : value) (vector : list num)
  (documents : option (list value)) (limit offset : option num) (s : Session) :
  let sent {A} (outcome : (Error + A) * Session) :=
    List.length (snd (snd outcome)) - List.length (snd s) in
  sent (createDocument this record s) = 1
  /\ sent (getDocumentByReference this key s) = 1
  /\ sent (delete this key s) = 1
  /\ sent (getDocuments this s) = 1
  /\ sent (query this vector documents limit offset s)
     = if truthy (operator_table (algorithm this)) then 1 else 0.
Proof.
  cbv zeta.
  assert (Hone : forall stmt : SQLStatement num,
             List.length (snd s ++ [stmt]) - List.length (snd s) = 1)
    by (intros stmt; rewrite length_app; simpl; lia).
  split.
  { unfold createDocument, bind.
    pose proof (pool_query_journal (pool this)
                  (createInsertQuery (documentTable this) record
                     (documentScope this) None) s) as Hj.
    destruct (pool_query (pool this) _ s) as [[e|result] s1]; simpl in Hj.
    - simpl. rewrite Hj. apply Hone.
    - unfold assert.
      destruct (Nat.eqb (List.length (rows result)) 1); unfold ret, throw;
        [destruct (nth_error (rows result) 0)|]; simpl; rewrite Hj;
        apply Hone. }
  split.
  { unfold getDocumentByReference, bind.
    pose proof (pool_query_journal (pool this) (lookup_statement this key) s)
      as Hj.
    destruct (pool_query (pool this) _ s) as [[e|result] s1]; simpl in *;
      rewrite Hj; apply Hone. }
  split.
  { unfold delete, bind.
    pose proof (pool_query_journal (pool this) (delete_statement this key) s)
      as Hj.
    destruct (pool_query (pool this) _ s) as [[e|result] s1]; simpl in *;
      rewrite Hj; apply Hone. }
  split.
  { unfold getDocuments.
    pose proof (pool_query_journal (pool this) (documents_statement this) s)
      as Hj.
    destruct (pool_query (pool this) _ s) as [res s1]; simpl in *.
    rewrite Hj. apply Hone. }
  unfold query, bind, assert.
  destruct (truthy (operator_table (algorithm this))).
  - unfold ret.
    pose proof (pool_query_journal (pool this)
                  (query_statement this
                     (lookup_text (operator_table (algorithm this)))
                     vector documents (or_default limit (Number_of_Z 10))
                     (or_default offset (Number_of_Z 0))) s) as Hj.
    destruct (pool_query (pool this) _ s) as [res s1]; simpl in *.
    rewrite Hj. apply Hone.
  - unfold throw. simpl. lia.
Qed.

Lemma map_throwing_fails {A B} (f : A -> Error + B) (before after : list A)
  (bad : A) (decoded : list B) (e : Error) :
  map_throwing f before = inr decoded ->
  f bad = inl e ->
  map_throwing f (before ++ bad :: after) = inl e.
Proof.
  revert decoded. induction before as [|a before IH]; intros decoded Hb Hbad.
  - simpl. now rewrite Hbad.
  - simpl in *. destruct (f a) as [e'|b]; [discriminate|].
    destruct (map_throwing f before) as [e'|bs] eqn:E; [discriminate|].
    now rewrite (IH bs eq_refl Hbad).
Qed.

(** X20.  [query] decodes the whole result before the stream has anything
    to give: when the vector column of one row is not a JSON text, reading
    the stream fails with the syntax error for the first such row, and the
    rows before it, though their vector columns are read, are not
    delivered. *)
Theorem query_fails_as_a_whole (this : PostgresVectorStore)
  (vector : list num) (documents : option (list value))
  (limit offset : option num) (s : Session)
  (before after : list JSObject) (bad : JSObject) (w' : W) :
  let stmt :=
    query_statement this (lookup_text (operator_table (algorithm this)))
      vector documents
      (match limit with Some l => l | None => Number_of_Z 10 end)
      (match offset with Some o => o | None => Number_of_Z 0 end) in
  truthy (operator_table (algorithm this)) = true ->
  run_statement (pool this) stmt (fst s)
  = (inr (mkResult (before ++ bad :: after)), w') ->
  Forall (fun row => JSON_parse (ToString (get_prop row "vector")) <> None)
         before ->
  JSON_parse (ToString (get_prop bad "vector")) = None ->
  exists stream,
    fst (query this vector documents limit offset s) = inr stream
    /\ toArray stream = inl (SyntaxError (ToString (get_prop bad "vector")))
    /\ buffered stream = 0.
Proof.
  intros stmt Ht Hrun Hbefore Hbad.
  assert (Hsent :
            run_statement (pool this)
              (query_statement this
                 (lookup_text (operator_table (algorithm this)))
                 vector documents (or_default limit (Number_of_Z 10))
                 (or_default offset (Number_of_Z 0))) (fst s)
            = (inr (mkResult (before ++ bad :: after)), w'))
    by (destruct limit, offset; exact Hrun).
  rewrite (query_sends this vector documents limit offset s _ _ Ht Hsent).
  eexists. split; [reflexivity|]. cbn [promise_then].
  unfold toArray, buffered. simpl.
  destruct (map_throwing_decodes before Hbefore) as [decoded Hdecoded].
  rewrite (map_throwing_fails decode_row before after bad decoded _ Hdecoded
             (decode_row_fails bad Hbad)).
  split; reflexivity.
Qed.

End RoundTrips.

(** ** The further properties on concrete inputs *)

(** A name with a quote in it, followed by the rest of a clause. *)
Example createIdentifier_reads_back_witness :
  read_identifier (createIdentifier quoted_name ++ " = $1")
  = Some (quoted_name, " = $1").
Proof. apply (createIdentifier_reads_back quoted_name " = $1"). reflexivity. Defined.

(** Quoting told apart: the same text only for the same name. *)
Example createIdentifier_injective_witness : quoted_name = quoted_name.
Proof. apply (createIdentifier_injective quoted_name quoted_name). reflexivity. Defined.

(** A delete that the pool answers with no row. *)
Example delete_sends_one_statement_witness :
  let store := scripted_store None (Some [("scope", VStr "test")]) in
  delete store (VNum 42%Z) ([inr (mkResult [])], [])
  = (inr tt, ([], [delete_statement store (VNum 42%Z)]))
  /\ text (delete_statement store (VNum 42%Z))
     = "DELETE FROM " ++ quote_mark ++ "documents" ++ quote_mark
       ++ " WHERE " ++ quote_mark ++ "id" ++ quote_mark ++ " = $1"
       ++ " AND " ++ quote_mark ++ "scope" ++ quote_mark ++ " = $2"
  /\ values (delete_statement store (VNum 42%Z)) = [VNum 42%Z; VStr "test"].
Proof.
  cbv zeta.
  destruct (delete_sends_one_statement
              (scripted_store None (Some [("scope", VStr "test")]))
              (VNum 42%Z) ([inr (mkResult [])], []) (inr (mkResult [])) [])
    as (Hdelete & Htext & Hvalues).
  - reflexivity.
  - split; [exact Hdelete|]. split; [exact Htext | exact Hvalues].
Defined.

(** A pool that has lost its connection. *)
Example pool_errors_reach_the_caller_witness :
  let down : list (Error + QueryResult Z) := [inl (BackendError "down")] in
  fst (createDocument plain_store [("name", VStr "Doc")] (down, []))
  = inl (BackendError "down")
  /\ exists stream,
       fst (query plain_store [1; 2; 3]%Z None None None (down, []))
       = inr stream
       /\ toArray stream = inl (BackendError "down").
Proof.
  cbv zeta.
  destruct (pool_errors_reach_the_caller plain_store (BackendError "down")
              ([inl (BackendError "down")], [])
              [("name", VStr "Doc")] hello [] (VNum 1%Z) [1; 2; 3]%Z
              None None None)
    as (Hcreate & _ & _ & _ & Hquery & _).
  - intros stmt. reflexivity.
  - reflexivity.
  - split; [exact Hcreate | exact Hquery].
Defined.

(** An insert that returned two rows: the assertion fails, the insert was
    sent. *)
Example createDocument_checks_after_the_insert_witness :
  let two : QueryResult Z :=
    mkResult [[("id", VNum 1%Z)]; [("id", VNum 2%Z)]] in
  let record : JSObject Z := [("name", VStr "Doc")] in
  fst (createDocument plain_store record ([inr two], []))
  = inl (AssertionError "Expected one row to be returned")
  /\ snd (createDocument plain_store record ([inr two], []))
     = ([], [createInsertQuery "documents" record [] None]).
Proof.
  cbv zeta.
  destruct (createDocument_checks_after_the_insert plain_store
              [("name", VStr "Doc")]
              ([inr (mkResult [[("id", VNum 1%Z)]; [("id", VNum 2%Z)]])], [])
              [[("id", VNum 1%Z)]; [("id", VNum 2%Z)]] [])
    as (Hsent & Hfail & _).
  - reflexivity.
  - split; [apply Hfail; simpl; lia | exact Hsent].
Defined.

(** A store that renames its embedding columns: the insert writes the scope
    to the renamed column, the filter names the scope key itself. *)
Example append_maps_the_scope_keys_witness :
  In (createIdentifier "e_scope")
     (map (fun e : string * value Z => createIdentifier (prefixed (fst e)))
          (spread (spread [] [("scope", VStr "test")])
                  (embedding_row hello (VNum 7%Z))))
  /\ text (createScopeFilter (embeddingScope renaming_store))
     = createIdentifier "scope" ++ " = $1".
Proof.
  destruct (append_maps_the_scope_keys renaming_store (VNum 7%Z) hello "scope")
    as (_ & _ & Hcolumn & Hfilter & _).
  - simpl. now left.
  - split; [exact Hcolumn | exact Hfilter].
Defined.

(** Two scopes and two records with the same keys and other values. *)
Example texts_depend_on_the_keys_only_witness :
  text (createInsertQuery "embeddings" hello [("scope", VStr "a")] None)
  = text (createInsertQuery "embeddings" world [("scope", VStr "b")] None).
Proof.
  destruct (texts_depend_on_the_keys_only "embeddings" hello world
              [("scope", VStr "a")] [("scope", VStr "b")] None)
    as (_ & Hinsert).
  - reflexivity.
  - reflexivity.
  - exact Hinsert.
Defined.

(** A record with the key 0 merged into a scope. *)
Example index_key_goes_first_witness :
  Object_keys (spread (spread [] [("scope", VStr "test")]) [("0", VNum 5%Z)])
  = ["0"; "scope"].
Proof.
  apply (index_key_goes_first [("scope", VStr "test")] "0" (VNum 5%Z)).
  - repeat constructor.
  - repeat (constructor; [simpl; intuition discriminate|]). constructor.
  - vm_compute. discriminate.
Defined.

(** Two rows, the second with a vector column that is no JSON text. *)
Example query_fails_as_a_whole_witness :
  let answer : QueryResult Z :=
    mkResult [found_row "Hello" "[1,2,3]" 0; found_row "World" "oops" 1] in
  exists stream,
    fst (query plain_store [1; 2; 3]%Z None None None ([inr answer], []))
    = inr stream
    /\ toArray stream = inl (SyntaxError "oops").
Proof.
  cbv zeta.
  destruct (query_fails_as_a_whole plain_store [1; 2; 3]%Z None None None
              ([inr (mkResult [found_row "Hello" "[1,2,3]" 0;
                               found_row "World" "oops" 1])], [])
              [found_row "Hello" "[1,2,3]" 0] [] (found_row "World" "oops" 1)
              [])
    as (stream & Hquery & Harray & _).
  - reflexivity.
  - reflexivity.
  - repeat constructor; discriminate.
  - reflexivity.
  - exists stream. split; assumption.
Defined.
